(** * The key transfer command of cryft: a shallow embedding of [transferF]

    The command moves funds between a stored key (or ledger address) on the
    P-Chain and a target address, through export and import transactions.
    [transferF] (package keycmd) is the whole orchestrator: it reads the
    package-level flag variables, asks its collaborators (prompts, key store,
    wallet) for what is missing, prints a summary, asks for confirmation and
    issues the transactions.

    The embedding keeps the flags as explicit state, logs every collaborator
    interaction in a trace, and returns what the Go function returns. *)

From Stdlib Require Import ZArith List String Bool Lia.
From Stdlib Require Import Floats.PrimFloat Floats.FloatOps Floats.SpecFloat.
From Stdlib Require Import Ascii DecimalString DecimalN.
Import ListNotations.

Open Scope string_scope.
Open Scope list_scope.
Open Scope Z_scope.

(** ** Machine integers and floats *)

(** Go's [uint64] arithmetic wraps around. *)
Definition wrap64 (z : Z) : Z := z mod 2 ^ 64.

Definition add64 (a b : Z) : Z := wrap64 (a + b).
Definition mul64 (a b : Z) : Z := wrap64 (a * b).

(** [units.Avax]: one AVAX in nAVAX, the smallest denomination. The amounts
    are printed with [%.9f], nine decimals. *)
Definition units_Avax : Z := 1000000000.

(** [float64(units.Avax)]; 10^9 is below 2^53, so the conversion is exact. *)
Definition float_Avax : float := 1000000000%float.

(** The integer part of a finite binary64 value, rounded toward zero. *)
Definition trunc_sf (x : spec_float) : option Z :=
  match x with
  | S754_zero _ => Some 0
  | S754_finite s m e =>
      let v := match e with
               | Z0 => Zpos m
               | Zpos p => Zpos m * 2 ^ Zpos p
               | Zneg p => Zpos m / 2 ^ Zpos p
               end in
      Some (if s then - v else v)
  | S754_infinity _ => None
  | S754_nan => None
  end.

(** Go's conversion [uint64(x)] of a [float64]: the fraction is discarded;
    when the truncated value is not a [uint64] (negative, too large, not
    finite) the result depends on the implementation, here [oob x]. *)
Definition uint64_of_float (oob : float -> Z) (x : float) : Z :=
  match trunc_sf (Prim2SF x) with
  | Some z => if (0 <=? z) && (z <? 2 ^ 64) then z else wrap64 (oob x)
  | None => wrap64 (oob x)
  end.

(** ** Data *)

(** [ids.ShortID], a 20-byte address, compared with [==]. *)
Definition ShortID := string.

(** [keychain.Keychain], seen through [Addresses().List()]. *)
Definition Keychain := list ShortID.

(** [secp256k1fx.OutputOwners]. *)
Record OutputOwners := {
  Threshold : Z;
  Addrs : list ShortID
}.

(** [models.NetworkKind] and [models.Network]. *)
Inductive NetworkKind := Undefined | Mainnet | Tahoe | Local | Devnet.

Record Network := {
  Kind : NetworkKind;
  ID : Z;
  Endpoint : string;
  ClusterName : string
}.

(** [genesis.Params]: only the transaction fee is read. *)
Record Params := { TxFee : Z }.

(** The parameter sets of the node library, which this repository imports. *)
Record GenesisTable := {
  LocalParams : Params;
  TahoeParams : Params;
  MainnetParams : Params
}.

(** [Network.GenesisParams]: [None] is Go's nil pointer. *)
Definition GenesisParams (g : GenesisTable) (n : Network) : option Params :=
  match Kind n with
  | Local => Some (LocalParams g)
  | Devnet => Some (LocalParams g)
  | Tahoe => Some (TahoeParams g)
  | Mainnet => Some (MainnetParams g)
  | Undefined => None
  end.

(** The errors [transferF] returns. [ErrExternal] is an error of a
    collaborator, passed on unchanged; the last four wrap one. *)
Inductive error :=
| ErrOnlyOneSendReceive
| ErrKeyNameAndLedger
| ErrMustBeGreaterThanZero (v : float)
| ErrSameAddr
| ErrExternal (msg : string)
| ErrBuildingTx (cause : error)
| ErrSigningTx (cause : error)
| ErrTimeoutIssuing (cause : error)
| ErrIssuing (cause : error).

Inductive result (A : Type) :=
| Ok (a : A)
| Err (e : error).
Arguments Ok {A} a.
Arguments Err {A} e.

(** What [IssueTx] under the API context gives: success, an error with the
    context expired ([ctx.Err() != nil]), or an error within the deadline. *)
Inductive IssueResult :=
| Issued
| IssueTimedOut (e : error)
| IssueFailed (e : error).

Record Wallet := {
  AVAXAssetID : string;
  XBlockchainID : string
}.

Definition UnsignedTx := string.

(** ** The package-level flag variables *)

Definition wrongLedgerIndexVal : Z := 32768.
Definition receiveRecoveryStepFlag : string := "receive-recovery-step".

Record Flags := {
  send : bool;
  receive : bool;
  keyName : string;
  ledgerIndex : Z;
  force : bool;
  receiverAddrStr : string;
  amountFlt : float;
  receiveRecoveryStep : Z;
  PToX : bool;
  PToP : bool
}.

Definition set_send (b : bool) (f : Flags) : Flags :=
  {| send := b; receive := receive f; keyName := keyName f;
     ledgerIndex := ledgerIndex f; force := force f;
     receiverAddrStr := receiverAddrStr f; amountFlt := amountFlt f;
     receiveRecoveryStep := receiveRecoveryStep f;
     PToX := PToX f; PToP := PToP f |}.

Definition set_receive (b : bool) (f : Flags) : Flags :=
  {| send := send f; receive := b; keyName := keyName f;
     ledgerIndex := ledgerIndex f; force := force f;
     receiverAddrStr := receiverAddrStr f; amountFlt := amountFlt f;
     receiveRecoveryStep := receiveRecoveryStep f;
     PToX := PToX f; PToP := PToP f |}.

Definition set_keyName (k : string) (f : Flags) : Flags :=
  {| send := send f; receive := receive f; keyName := k;
     ledgerIndex := ledgerIndex f; force := force f;
     receiverAddrStr := receiverAddrStr f; amountFlt := amountFlt f;
     receiveRecoveryStep := receiveRecoveryStep f;
     PToX := PToX f; PToP := PToP f |}.

Definition set_ledgerIndex (i : Z) (f : Flags) : Flags :=
  {| send := send f; receive := receive f; keyName := keyName f;
     ledgerIndex := i; force := force f;
     receiverAddrStr := receiverAddrStr f; amountFlt := amountFlt f;
     receiveRecoveryStep := receiveRecoveryStep f;
     PToX := PToX f; PToP := PToP f |}.

Definition set_receiverAddrStr (a : string) (f : Flags) : Flags :=
  {| send := send f; receive := receive f; keyName := keyName f;
     ledgerIndex := ledgerIndex f; force := force f;
     receiverAddrStr := a; amountFlt := amountFlt f;
     receiveRecoveryStep := receiveRecoveryStep f;
     PToX := PToX f; PToP := PToP f |}.

Definition set_amountFlt (a : float) (f : Flags) : Flags :=
  {| send := send f; receive := receive f; keyName := keyName f;
     ledgerIndex := ledgerIndex f; force := force f;
     receiverAddrStr := receiverAddrStr f; amountFlt := a;
     receiveRecoveryStep := receiveRecoveryStep f;
     PToX := PToX f; PToP := PToP f |}.

Definition set_receiveRecoveryStep (k : Z) (f : Flags) : Flags :=
  {| send := send f; receive := receive f; keyName := keyName f;
     ledgerIndex := ledgerIndex f; force := force f;
     receiverAddrStr := receiverAddrStr f; amountFlt := amountFlt f;
     receiveRecoveryStep := k;
     PToX := PToX f; PToP := PToP f |}.

Definition set_PToX (b : bool) (f : Flags) : Flags :=
  {| send := send f; receive := receive f; keyName := keyName f;
     ledgerIndex := ledgerIndex f; force := force f;
     receiverAddrStr := receiverAddrStr f; amountFlt := amountFlt f;
     receiveRecoveryStep := receiveRecoveryStep f;
     PToX := b; PToP := PToP f |}.

Definition set_PToP (b : bool) (f : Flags) : Flags :=
  {| send := send f; receive := receive f; keyName := keyName f;
     ledgerIndex := ledgerIndex f; force := force f;
     receiverAddrStr := receiverAddrStr f; amountFlt := amountFlt f;
     receiveRecoveryStep := receiveRecoveryStep f;
     PToX := PToX f; PToP := b |}.

(** ** The trace of interactions *)

(** Where a wallet operation is made: the send branch, or the block of the
    receive branch guarded by [receiveRecoveryStep == k]. *)
Inductive Site :=
| SendSite
| RecvSite (k : Z).

(** The wallet and chain-client operations. *)
Inductive ChainOp :=
| OpMakeWallet
| OpNewExportTx (amt : Z) (to : OutputOwners)
| OpNewImportTx (to : OutputOwners)
| OpSign
| OpIssueTx
| OpIssueXToPExportTx (usingLedger : bool) (amt : Z) (to : OutputOwners)
| OpIssuePFromXImportTx (usingLedger : bool) (to : OutputOwners).

(** The lines [ux.Logger.PrintToUser] writes. Amounts are kept as the
    [uint64] that is divided by [units.Avax] for the [%.9f] display. *)
Inductive Message :=
| MsgBlank
| MsgGoingTo
| MsgSend (amount : Z) (addrStr : string) (receiverAddrStr : string)
| MsgFee (totalFee : Z) (addrStr : string)
| MsgReceive (amount : Z) (receiverAddrStr : string)
| MsgCancelled
| MsgIssuing (what : string)
| MsgLedgerSign (what : string)
| MsgRestartSame
| MsgRestartStep (flag : string) (step : Z).

Inductive Event :=
| EvGetNetwork
| EvCaptureList (label : string)
| EvGetFujiKeyOrLedger (goal : string)
| EvCaptureUint32 (label : string)
| EvCaptureFloat (label : string)
| EvLoadSoft (path : string) (r : result Keychain)
| EvLedgerNew
| EvLedgerKeychain (indices : list Z) (r : result Keychain)
| EvCapturePChainAddress
| EvCaptureXChainAddress
| EvParseToID (s : string)
| EvFormat (addr : ShortID)
| EvCaptureNoYes (label : string)
| EvPrint (m : Message)
| EvChain (site : Site) (op : ChainOp) (failed : bool)
| EvSleep (seconds : Z).

(** ** The collaborators

    Everything [transferF] calls outside its own body: the network resolver,
    the prompts, the key store and ledger, the address codec, the wallet and
    its chain clients. Each call site of [transferF] is reached at most once
    in an invocation, so a collaborator is the answer it gives there. *)
Record World := {
  genesis : GenesisTable;
  uint64_oob : float -> Z;
  GetNetworkFromCmdLineFlags : result Network;
  CaptureList : string -> list string -> result string;
  GetKeyDir : string;
  GetFujiKeyOrLedger : string -> string -> result (bool * string);
  CaptureUint32 : string -> result Z;
  CaptureFloat : string -> (float -> option error) -> result float;
  GetKeyPath : string -> string;
  LoadSoft : Z -> string -> result Keychain;
  ledger_New : result unit;
  NewLedgerKeychainFromIndices : list Z -> result Keychain;
  CapturePChainAddress : string -> Network -> result string;
  CaptureXChainAddress : string -> Network -> result string;
  ParseToID : string -> result ShortID;
  GetHRP : Z -> string;
  Format : string -> string -> ShortID -> result string;
  CaptureNoYes : string -> result bool;
  MakeWallet : Site -> string -> Keychain -> result Wallet;
  P_NewExportTx : Wallet -> string -> Z -> OutputOwners -> result UnsignedTx;
  P_Sign : UnsignedTx -> result unit;
  P_IssueTx : UnsignedTx -> IssueResult;
  X_NewImportTx : Wallet -> OutputOwners -> result UnsignedTx;
  X_Sign : UnsignedTx -> result unit;
  X_IssueTx : UnsignedTx -> IssueResult;
  IssueXToPExportTx :
    Wallet -> bool -> bool -> string -> Z -> OutputOwners -> result string;
  IssuePFromXImportTx :
    Wallet -> bool -> bool -> OutputOwners -> result string
}.

(** ** The monad of the command

    A computation reads and writes the flags, appends to the trace, and
    either goes on with a value, leaves [transferF] with its return value
    ([Return None] is [return nil]), or panics. *)
Inductive Outcome (A : Type) :=
| Continue (a : A)
| Return (e : option error)
| Panic.
Arguments Continue {A} a.
Arguments Return {A} e.
Arguments Panic {A}.

Definition M (A : Type) : Type := Flags -> Outcome A * Flags * list Event.

Definition ret {A} (a : A) : M A := fun f => (Continue a, f, []).

Definition bind {A B} (m : M A) (k : A -> M B) : M B :=
  fun f =>
    match m f with
    | (Continue a, f1, t1) =>
        match k a f1 with
        | (o, f2, t2) => (o, f2, t1 ++ t2)
        end
    | (Return e, f1, t1) => (Return e, f1, t1)
    | (Panic, f1, t1) => (Panic, f1, t1)
    end.

Declare Scope cmd_scope.
Delimit Scope cmd_scope with cmd.
Notation "x <- m ;; k" := (bind m (fun x => k))
  (at level 100, m at next level, right associativity) : cmd_scope.
Notation "m ;; k" := (bind m (fun _ => k))
  (at level 100, right associativity) : cmd_scope.
Open Scope cmd_scope.

Definition get : M Flags := fun f => (Continue f, f, []).
Definition modify (g : Flags -> Flags) : M unit := fun f => (Continue tt, g f, []).
Definition emit (e : Event) : M unit := fun f => (Continue tt, f, [e]).
Definition print (m : Message) : M unit := emit (EvPrint m).
Definition fail {A} (e : error) : M A := fun f => (Return (Some e), f, []).
Definition returnNil {A} : M A := fun f => (Return None, f, []).
Definition panic {A} : M A := fun f => (Panic, f, []).

(** [if err != nil { return err }]. *)
Definition lift {A} (r : result A) : M A :=
  match r with
  | Ok a => ret a
  | Err e => fail e
  end.

Definition when (b : bool) (m : M unit) : M unit := if b then m else ret tt.

Definition isErr {A} (r : result A) : bool :=
  match r with Ok _ => false | Err _ => true end.

(** [xs[0]]: an index out of range panics. *)
Definition index0 {A} (xs : list A) : M A :=
  match xs with
  | x :: _ => ret x
  | [] => panic
  end.

(** A wallet operation at [site], logged with whether it failed; on an
    error [onErr] runs (it ends with a [return]). *)
Definition chain {A} (site : Site) (op : ChainOp) (r : result A)
    (onErr : error -> M A) : M A :=
  emit (EvChain site op (isErr r)) ;;
  match r with
  | Ok a => ret a
  | Err e => onErr e
  end.

(** Lines 520-524 and 566-570: the error of [IssueTx] is wrapped as a
    timeout when the context has expired. *)
Definition issueResult (r : IssueResult) : result unit :=
  match r with
  | Issued => Ok tt
  | IssueTimedOut e => Err (ErrTimeoutIssuing e)
  | IssueFailed e => Err (ErrIssuing e)
  end.

(** ** [transferF], part by part *)

(** Lines 296-302. *)
Definition checkFlags : M unit :=
  f <- get ;;
  if send f && receive f then fail ErrOnlyOneSendReceive
  else if negb (keyName f =? "")%string
          && negb (ledgerIndex f =? wrongLedgerIndexVal)
  then fail ErrKeyNameAndLedger
  else ret tt.

(** Lines 304-313. *)
Definition resolveNetwork (w : World) : M Network :=
  emit EvGetNetwork ;;
  lift (GetNetworkFromCmdLineFlags w).

(** Lines 315-328. *)
Definition selectStep (w : World) : M unit :=
  f <- get ;;
  when (negb (send f) && negb (receive f))
    (emit (EvCaptureList "Step of the transfer") ;;
     option <- lift (CaptureList w "Step of the transfer" ["Send"; "Receive"]) ;;
     if (option =? "Send")%string then modify (set_send true)
     else modify (set_receive true)).

(** Lines 330-343. *)
Definition selectDestination (w : World) : M unit :=
  f <- get ;;
  when (negb (PToP f) && negb (PToX f))
    (emit (EvCaptureList "Destination Chain") ;;
     option <- lift (CaptureList w "Destination Chain" ["P-Chain"; "X-Chain"]) ;;
     if (option =? "P-Chain")%string then modify (set_PToP true)
     else modify (set_PToX true)).

(** Lines 345-363. *)
Definition selectSigner (w : World) : M unit :=
  f <- get ;;
  when ((keyName f =? "")%string && (ledgerIndex f =? wrongLedgerIndexVal))
    (let goalStr := if send f then " for the sender address"
                    else " for the receiver address" in
     emit (EvGetFujiKeyOrLedger goalStr) ;;
     r <- lift (GetFujiKeyOrLedger w goalStr (GetKeyDir w)) ;;
     modify (set_keyName (snd r)) ;;
     when (fst r)
       (emit (EvCaptureUint32 "Ledger index to use") ;;
        i <- lift (CaptureUint32 w "Ledger index to use") ;;
        modify (set_ledgerIndex i))).

(** The validator handed to [CaptureFloat], lines 372-377. *)
Definition amountValidator (v : float) : option error :=
  if PrimFloat.leb v 0 then Some (ErrMustBeGreaterThanZero v) else None.

(** Lines 365-381. *)
Definition captureAmount (w : World) : M unit :=
  f <- get ;;
  when (PrimFloat.eqb (amountFlt f) 0)
    (let promptStr := if send f then "Amount to send (AVAX units)"
                      else "Amount to receive (AVAX units)" in
     emit (EvCaptureFloat promptStr) ;;
     v <- lift (CaptureFloat w promptStr amountValidator) ;;
     modify (set_amountFlt v)).

(** Line 382: [uint64(amountFlt * float64(units.Avax))]. *)
Definition amountOf (w : World) (a : float) : Z :=
  uint64_of_float (uint64_oob w) (PrimFloat.mul a float_Avax).

(** Line 384: [network.GenesisParams().TxFee]; a nil pointer panics. *)
Definition genesisFee (w : World) (network : Network) : M Z :=
  match GenesisParams (genesis w) network with
  | Some p => ret (TxFee p)
  | None => panic
  end.

(** Lines 386-404. *)
Definition loadKeychain (w : World) (network : Network) : M Keychain :=
  f <- get ;;
  if negb (keyName f =? "")%string then
    let keyPath := GetKeyPath w (keyName f) in
    let r := LoadSoft w (ID network) keyPath in
    emit (EvLoadSoft keyPath r) ;;
    lift r
  else
    emit EvLedgerNew ;;
    lift (ledger_New w) ;;
    let r := NewLedgerKeychainFromIndices w [ledgerIndex f] in
    emit (EvLedgerKeychain [ledgerIndex f] r) ;;
    lift r.

(** Lines 406-431. *)
Definition resolveReceiver (w : World) (network : Network) (kc : Keychain)
    : M ShortID :=
  f <- get ;;
  if send f then
    when (receiverAddrStr f =? "")%string
      (if PToP f then
         emit EvCapturePChainAddress ;;
         s <- lift (CapturePChainAddress w "Receiver address" network) ;;
         modify (set_receiverAddrStr s)
       else
         emit EvCaptureXChainAddress ;;
         s <- lift (CaptureXChainAddress w "Receiver address" network) ;;
         modify (set_receiverAddrStr s)) ;;
    f <- get ;;
    emit (EvParseToID (receiverAddrStr f)) ;;
    lift (ParseToID w (receiverAddrStr f))
  else
    receiverAddr <- index0 kc ;;
    emit (EvFormat receiverAddr) ;;
    s <- lift (Format w "P" (GetHRP w (ID network)) receiverAddr) ;;
    modify (set_receiverAddrStr s) ;;
    ret receiverAddr.

(** The local variables [network], [kc], [receiverAddr], [amount] and
    [fee], as they stand once the receiver address is known (line 431). *)
Record Env := {
  env_network : Network;
  env_kc : Keychain;
  env_receiverAddr : ShortID;
  env_amount : Z;
  env_fee : Z
}.

(** Lines 433-453. *)
Definition printSummary (w : World) (env : Env) : M unit :=
  print MsgBlank ;;
  print MsgGoingTo ;;
  f <- get ;;
  (if send f then
     addr <- index0 (env_kc env) ;;
     emit (EvFormat addr) ;;
     addrStr <- lift (Format w "P" (GetHRP w (ID (env_network env))) addr) ;;
     if (addr =? env_receiverAddr env)%string && PToP f then fail ErrSameAddr
     else
       print (MsgSend (env_amount env) addrStr (receiverAddrStr f)) ;;
       let totalFee := if PToX f then mul64 2 (env_fee env)
                       else mul64 4 (env_fee env) in
       print (MsgFee totalFee addrStr)
   else
     print (MsgReceive (env_amount env) (receiverAddrStr f))) ;;
  print MsgBlank.

(** Lines 455-465. *)
Definition confirm (w : World) : M unit :=
  f <- get ;;
  when (negb (force f))
    (emit (EvCaptureNoYes "Confirm transfer") ;;
     conf <- lift (CaptureNoYes w "Confirm transfer") ;;
     if negb conf then print MsgCancelled ;; returnNil
     else ret tt).

(** Lines 467-470. *)
Definition ownersOf (receiverAddr : ShortID) : OutputOwners :=
  {| Threshold := 1; Addrs := [receiverAddr] |}.

Definition usingLedger (f : Flags) : bool :=
  negb (ledgerIndex f =? wrongLedgerIndexVal).

(** Lines 472-526, the send branch. *)
Definition sendFlow (w : World) (env : Env) : M unit :=
  let to := ownersOf (env_receiverAddr env) in
  wallet <- chain SendSite OpMakeWallet
              (MakeWallet w SendSite (Endpoint (env_network env)) (env_kc env))
              fail ;;
  f <- get ;;
  let amountPlusFee :=
    if PToX f then add64 (env_amount env) (env_fee env)
    else add64 (env_amount env) (mul64 (env_fee env) 3) in
  print (MsgIssuing "ExportTx P -> X") ;;
  when (usingLedger f)
    (print (MsgLedgerSign "Export Tx / P to X Chain")) ;;
  unsignedTx <- chain SendSite (OpNewExportTx amountPlusFee to)
                  (P_NewExportTx w wallet (XBlockchainID wallet) amountPlusFee to)
                  (fun e => fail (ErrBuildingTx e)) ;;
  chain SendSite OpSign (P_Sign w unsignedTx)
    (fun e => fail (ErrSigningTx e)) ;;
  chain SendSite OpIssueTx (issueResult (P_IssueTx w unsignedTx)) fail.

(** The two forms of the resume instruction printed on a failure. *)
Definition restartSame {A} (e : error) : M A :=
  print MsgRestartSame ;; fail e.

Definition restartStep {A} (e : error) : M A :=
  f <- get ;;
  print (MsgRestartStep receiveRecoveryStepFlag (receiveRecoveryStep f)) ;;
  fail e.

(** [receiveRecoveryStep++]. *)
Definition advance : M unit :=
  modify (fun f => set_receiveRecoveryStep (add64 (receiveRecoveryStep f) 1) f).

(** Lines 528-581: the import on the X-Chain of what the sender exported. *)
Definition receiveStep0 (w : World) (env : Env) : M unit :=
  let to := ownersOf (env_receiverAddr env) in
  wallet <- chain (RecvSite 0) OpMakeWallet
              (MakeWallet w (RecvSite 0) (Endpoint (env_network env)) (env_kc env))
              restartSame ;;
  print (MsgIssuing "ImportTx P -> X") ;;
  f <- get ;;
  when (usingLedger f) (print (MsgLedgerSign "ImportTx")) ;;
  unsignedTx <- chain (RecvSite 0) (OpNewImportTx to)
                  (X_NewImportTx w wallet to)
                  (fun e => restartSame (ErrBuildingTx e)) ;;
  chain (RecvSite 0) OpSign (X_Sign w unsignedTx)
    (fun e => restartSame (ErrSigningTx e)) ;;
  chain (RecvSite 0) OpIssueTx (issueResult (X_IssueTx w unsignedTx))
    restartSame ;;
  f <- get ;;
  if PToX f then returnNil
  else
    emit (EvSleep 2) ;;
    advance.

(** Lines 582-610: the export from the X-Chain back to the P-Chain. *)
Definition receiveStep1 (w : World) (env : Env) : M unit :=
  let to := ownersOf (env_receiverAddr env) in
  wallet <- chain (RecvSite 1) OpMakeWallet
              (MakeWallet w (RecvSite 1) (Endpoint (env_network env)) (env_kc env))
              restartStep ;;
  print (MsgIssuing "ExportTx X -> P") ;;
  f <- get ;;
  let amt := add64 (env_amount env) (mul64 (env_fee env) 1) in
  chain (RecvSite 1) (OpIssueXToPExportTx (usingLedger f) amt to)
    (IssueXToPExportTx w wallet (usingLedger f) true (AVAXAssetID wallet) amt to)
    restartStep ;;
  emit (EvSleep 2) ;;
  advance.

(** Lines 611-635: the import on the P-Chain. *)
Definition receiveStep2 (w : World) (env : Env) : M unit :=
  let to := ownersOf (env_receiverAddr env) in
  wallet <- chain (RecvSite 2) OpMakeWallet
              (MakeWallet w (RecvSite 2) (Endpoint (env_network env)) (env_kc env))
              restartStep ;;
  print (MsgIssuing "ImportTx X -> P") ;;
  f <- get ;;
  chain (RecvSite 2) (OpIssuePFromXImportTx (usingLedger f) to)
    (IssuePFromXImportTx w wallet (usingLedger f) true to)
    restartStep ;;
  ret tt.

(** Lines 527-636, the receive branch: three blocks, each guarded by the
    current value of [receiveRecoveryStep]. *)
Definition receiveFlow (w : World) (env : Env) : M unit :=
  f <- get ;;
  when (receiveRecoveryStep f =? 0) (receiveStep0 w env) ;;
  f <- get ;;
  when (receiveRecoveryStep f =? 1) (receiveStep1 w env) ;;
  f <- get ;;
  when (receiveRecoveryStep f =? 2) (receiveStep2 w env).

(** Lines 296-404: the flags are checked and completed, the amount is
    converted, the fee and the keychain are fetched. *)
Record Inputs := {
  in_network : Network;
  in_amount : Z;
  in_fee : Z;
  in_kc : Keychain
}.

Definition gatherInputs (w : World) : M Inputs :=
  checkFlags ;;
  network <- resolveNetwork w ;;
  selectStep w ;;
  selectDestination w ;;
  selectSigner w ;;
  captureAmount w ;;
  f <- get ;;
  let amount := amountOf w (amountFlt f) in
  fee <- genesisFee w network ;;
  kc <- loadKeychain w network ;;
  ret {| in_network := network; in_amount := amount;
         in_fee := fee; in_kc := kc |}.

(** Lines 296-431. *)
Definition gather (w : World) : M Env :=
  i <- gatherInputs w ;;
  receiverAddr <- resolveReceiver w (in_network i) (in_kc i) ;;
  ret {| env_network := in_network i; env_kc := in_kc i;
         env_receiverAddr := receiverAddr;
         env_amount := in_amount i; env_fee := in_fee i |}.

(** Lines 296-465: everything before the first wallet is made. *)
Definition prepare (w : World) : M Env :=
  env <- gather w ;;
  printSummary w env ;;
  confirm w ;;
  ret env.

(** Lines 467-638. *)
Definition execute (w : World) (env : Env) : M unit :=
  f <- get ;;
  (if send f then sendFlow w env else receiveFlow w env) ;;
  returnNil.

Definition transferF (w : World) : M unit :=
  env <- prepare w ;;
  execute w env.

(** The three components of a run. *)
Definition outcome {A} (r : Outcome A * Flags * list Event) : Outcome A :=
  fst (fst r).
Definition final {A} (r : Outcome A * Flags * list Event) : Flags :=
  snd (fst r).
Definition events {A} (r : Outcome A * Flags * list Event) : list Event :=
  snd r.

(** ** Concrete collaborators, for running the command *)

Definition okWallet : Wallet :=
  {| AVAXAssetID := "AVAX"; XBlockchainID := "X" |}.

Definition testNetwork : Network :=
  {| Kind := Local; ID := 1337; Endpoint := "http://127.0.0.1:9650";
     ClusterName := "" |}.

(** A world in which the network has base fee [fee], the stored key and the
    ledger both control [kc], the operator answers [conf] to the
    confirmation, and the wallet operations answer as given; everything
    else succeeds. A float outside the [uint64] range converts as on amd64
    for values within the [int64] range: its integer part modulo [2^64]. *)
Definition testWorld (fee : Z) (kc : Keychain) (conf : bool)
    (wallets : Site -> result Wallet) (xIssue : IssueResult)
    (xToP pFromX : result string) : World :=
  {| genesis := {| LocalParams := {| TxFee := fee |};
                   TahoeParams := {| TxFee := fee |};
                   MainnetParams := {| TxFee := fee |} |};
     uint64_oob := fun x => match trunc_sf (Prim2SF x) with
                            | Some z => z
                            | None => 2 ^ 63
                            end;
     GetNetworkFromCmdLineFlags := Ok testNetwork;
     CaptureList := fun _ options => Ok (hd "" options);
     GetKeyDir := "keys";
     GetFujiKeyOrLedger := fun _ _ => Ok (false, "alice");
     CaptureUint32 := fun _ => Ok 0;
     CaptureFloat := fun _ _ => Ok 1%float;
     GetKeyPath := fun name => String.append "keys/" name;
     LoadSoft := fun _ _ => Ok kc;
     ledger_New := Ok tt;
     NewLedgerKeychainFromIndices := fun _ => Ok kc;
     CapturePChainAddress := fun _ _ => Ok "bob";
     CaptureXChainAddress := fun _ _ => Ok "bob";
     ParseToID := fun s => Ok s;
     GetHRP := fun _ => "local";
     Format := fun chainID _ addr => Ok (String.append chainID (String.append "-" addr));
     CaptureNoYes := fun _ => Ok conf;
     MakeWallet := fun site _ _ => wallets site;
     P_NewExportTx := fun _ _ _ _ => Ok "export";
     P_Sign := fun _ => Ok tt;
     P_IssueTx := fun _ => Issued;
     X_NewImportTx := fun _ _ => Ok "import";
     X_Sign := fun _ => Ok tt;
     X_IssueTx := fun _ => xIssue;
     IssueXToPExportTx := fun _ _ _ _ _ _ => xToP;
     IssuePFromXImportTx := fun _ _ _ _ => pFromX |}.

(** The world in which nothing fails. *)
Definition happyWorld (fee : Z) (kc : Keychain) (conf : bool) : World :=
  testWorld fee kc conf (fun _ => Ok okWallet) Issued (Ok "tx1") (Ok "tx2").

(** The flags as the command line leaves them when no option is given. *)
Definition defaultFlags : Flags :=
  {| send := false; receive := false; keyName := "";
     ledgerIndex := wrongLedgerIndexVal; force := false;
     receiverAddrStr := ""; amountFlt := 0%float;
     receiveRecoveryStep := 0; PToX := false; PToP := false |}.

(** ** Reading a trace *)

Definition is_chain (e : Event) : bool :=
  match e with EvChain _ _ _ => true | _ => false end.

Definition is_confirm (e : Event) : bool :=
  match e with EvCaptureNoYes _ => true | _ => false end.

(** The amount a summary line shows. *)
Definition shown (e : Event) : option Z :=
  match e with
  | EvPrint (MsgSend amount _ _) => Some amount
  | EvPrint (MsgFee totalFee _) => Some totalFee
  | EvPrint (MsgReceive amount _) => Some amount
  | _ => None
  end.

Definition is_shown (e : Event) : bool :=
  match shown e with Some _ => true | None => false end.

(** Events of the input stage: no wallet operation, no confirmation, no
    summary line. *)
Definition quiet (e : Event) : bool :=
  negb (is_chain e) && negb (is_confirm e) && negb (is_shown e).

(** Events of the execution stage: no confirmation, no summary line. *)
Definition unprompted (e : Event) : bool :=
  negb (is_confirm e) && negb (is_shown e).

Definition count (p : Event -> bool) (tr : list Event) : nat :=
  List.length (filter p tr).

(** Is there a wallet operation with no confirmation prompt before it? *)
Fixpoint chainBeforeConfirm (tr : list Event) : bool :=
  match tr with
  | [] => false
  | e :: tr' =>
      if is_confirm e then false
      else if is_chain e then true
      else chainBeforeConfirm tr'
  end.

(** The amounts displayed before the confirmation prompt, in order. *)
Fixpoint shownBeforeConfirm (tr : list Event) : list Z :=
  match tr with
  | [] => []
  | e :: tr' =>
      if is_confirm e then []
      else match shown e with
           | Some a => a :: shownBeforeConfirm tr'
           | None => shownBeforeConfirm tr'
           end
  end.

(** The cursor a resume instruction tells the operator to pass: the same
    command keeps the cursor it was invoked with. *)
Definition resumeValue (invoked : Z) (m : Message) : option Z :=
  match m with
  | MsgRestartSame => Some invoked
  | MsgRestartStep _ k => Some k
  | _ => None
  end.

Definition siteOf (e : Event) : option Site :=
  match e with EvChain s _ _ => Some s | _ => None end.

Definition chainFailed (e : Event) : bool :=
  match e with EvChain _ _ b => b | _ => false end.

(** A wallet operation of the receive block [k]. *)
Definition chainAt (k : Z) (e : Event) : bool :=
  match e with
  | EvChain (RecvSite j) _ _ => j =? k
  | _ => false
  end.



(** The owners an operation is built for. *)
Definition ownersOfOp (op : ChainOp) : option OutputOwners :=
  match op with
  | OpNewExportTx _ to => Some to
  | OpNewImportTx to => Some to
  | OpIssueXToPExportTx _ _ to => Some to
  | OpIssuePFromXImportTx _ to => Some to
  | _ => None
  end.




(** The invocation runs as a receive: [--receive] is set, or neither flag
    is and the operator does not pick "Send" at the prompt. *)
Definition receiveMode (w : World) (f : Flags) : bool :=
  negb (send f) &&
  (receive f ||
   match CaptureList w "Step of the transfer" ["Send"; "Receive"] with
   | Ok option => negb (option =? "Send")%string
   | Err _ => false
   end).

(** [m] relates the flags before and after by [R] and emits only events
    satisfying [P]. *)
Definition keeps {A} (R : Flags -> Flags -> Prop) (P : Event -> Prop)
    (m : M A) : Prop :=
  forall f, R f (final (m f)) /\ Forall P (events (m f)).

(** The flags the preparation never writes. *)
Definition sameCursor (f f' : Flags) : Prop :=
  receiveRecoveryStep f' = receiveRecoveryStep f /\ force f' = force f.

(** The flags fixed once the step and the destination are chosen. *)
Definition sameMode (f f' : Flags) : Prop :=
  send f' = send f /\ PToX f' = PToX f /\ PToP f' = PToP f /\
  amountFlt f' = amountFlt f /\ force f' = force f.

(** The step and the destination alone. *)
Definition sameDest (f f' : Flags) : Prop :=
  send f' = send f /\ PToX f' = PToX f /\ PToP f' = PToP f.

(** The keychain a key-store event reports as loaded. *)
Definition loadedKeychain (e : Event) : option Keychain :=
  match e with
  | EvLoadSoft _ (Ok kc) => Some kc
  | EvLedgerKeychain _ (Ok kc) => Some kc
  | _ => None
  end.

(** ** Classes of events and relations on flags *)

(** No constraint on how the flags change. *)
Definition anyFlags (f f' : Flags) : Prop := True.

Definition anyEvent (e : Event) : Prop := True.
Definition isQuiet (e : Event) : Prop := quiet e = true.
Definition isUnprompted (e : Event) : Prop := unprompted e = true.
Definition notChain (e : Event) : Prop := is_chain e = false.

(** Neither a wallet operation nor the confirmation prompt. *)
Definition isCalm (e : Event) : Prop :=
  is_chain e = false /\ is_confirm e = false.

(** Neither a wallet operation nor a summary line. *)
Definition plain (e : Event) : Prop :=
  is_chain e = false /\ is_shown e = false.

(** A wallet operation of one of the three receive blocks, or no wallet
    operation at all. *)
Definition receiveSite (e : Event) : Prop :=
  match e with
  | EvChain (RecvSite j) _ _ => j = 0 \/ j = 1 \/ j = 2
  | EvChain SendSite _ _ => False
  | _ => True
  end.

(** The events that ask for, or read, a target address. *)
Definition addressAsked (e : Event) : bool :=
  match e with
  | EvCapturePChainAddress => true
  | EvCaptureXChainAddress => true
  | EvParseToID _ => true
  | _ => false
  end.

Definition notAsked (e : Event) : Prop := addressAsked e = false.

(** An operation that names owners names [a] alone. *)
Definition ownedBy (a : ShortID) (e : Event) : Prop :=
  match e with
  | EvChain _ op _ =>
      forall to, ownersOfOp op = Some to -> to = ownersOf a
  | _ => True
  end.

(** The label of the confirmation prompt, line 456. *)
Definition confirmLabel : string := "Confirm transfer".

(** [z] is the finite value [x] rounded toward zero. *)
Definition truncates (x : spec_float) (z : Z) : Prop :=
  match x with
  | S754_zero _ => z = 0
  | S754_finite s m e =>
      match e with
      | Z0 => Z.abs z = Zpos m
      | Zpos p => Z.abs z = Zpos m * 2 ^ Zpos p
      | Zneg p =>
          Z.abs z * 2 ^ Zpos p <= Zpos m < (Z.abs z + 1) * 2 ^ Zpos p
      end /\ (if s then z <= 0 else 0 <= z)
  | S754_infinity _ => False
  | S754_nan => False
  end.

(** ** Independence from the receiver address *)

(** [m] does not read the receiver address: changing it beforehand changes
    nothing but the receiver address afterwards. *)
Definition commutes {A} (m : M A) : Prop :=
  forall a f,
    m (set_receiverAddrStr a f) =
    (outcome (m f), set_receiverAddrStr a (final (m f)), events (m f)).

(** Two runs that cannot be told apart, and go on from the same flags. *)
Definition agree {A} (r r' : Outcome A * Flags * list Event) : Prop :=
  outcome r = outcome r' /\ events r = events r' /\
  (forall x, outcome r = Continue x -> final r = final r').

(** What follows the gathering of the inputs (lines 406-638): [transferF]
    with its sequence re-associated after [gatherInputs]. *)
Definition afterInputs (w : World) (i : Inputs) : M unit :=
  bind
    (bind (resolveReceiver w (in_network i) (in_kc i))
       (fun receiverAddr =>
          ret {| env_network := in_network i; env_kc := in_kc i;
                 env_receiverAddr := receiverAddr;
                 env_amount := in_amount i; env_fee := in_fee i |}))
    (fun env =>
       bind (bind (printSummary w env)
               (fun _ => bind (confirm w) (fun _ => ret env)))
         (execute w)).

(** ** Invocations used as examples *)

(** [--key alice --ledger 0]: a key name together with a ledger index. *)
Definition conflictFlags : Flags :=
  set_keyName "alice" (set_ledgerIndex 0 defaultFlags).

(** A send of 1 from alice to her own address, to the P-Chain or to the
    X-Chain. *)
Definition selfSendFlags (toP : bool) : Flags :=
  set_send true
    (set_keyName "alice"
       (set_receiverAddrStr "alice"
          (set_amountFlt 1%float
             (if toP then set_PToP true defaultFlags
              else set_PToX true defaultFlags)))).

(** A receive of 1 on the P-Chain, with [--receive-recovery-step k]. *)
Definition resumeFlags (k : Z) : Flags :=
  set_receive true
    (set_PToP true
       (set_keyName "alice"
          (set_amountFlt 1%float (set_receiveRecoveryStep k defaultFlags)))).

(** A world in which the export of the receive times out. *)
Definition timeoutWorld : World :=
  testWorld 10 ["alice"] true (fun _ => Ok okWallet) Issued
    (Err (ErrTimeoutIssuing (ErrExternal "context deadline exceeded")))
    (Ok "tx2").

(** The scenario of the specification: a send of 1.5 to the P-Chain. *)
Definition scenarioFlags : Flags :=
  set_send true
    (set_PToP true
       (set_keyName "alice"
          (set_receiverAddrStr "bob"
             (set_amountFlt 1.5%float defaultFlags)))).

(** [--amount -1] on a send to the X-Chain. *)
Definition negativeAmountFlags : Flags :=
  set_send true
    (set_PToX true
       (set_keyName "alice"
          (set_receiverAddrStr "bob"
             (set_amountFlt (-1)%float defaultFlags)))).


(** ** [models.Network]: constructors, names and endpoints

    The rest of the file that declares [Network.GenesisParams]. The
    identifiers and endpoints of the known networks are constants of the
    packages [constants] and [avagoconstants], taken as parameters. *)
Record NetConstants := {
  MainnetID : Z;
  TahoeID : Z;
  LocalNetworkID : Z;
  DevnetNetworkID : Z;
  MainnetAPIEndpoint : string;
  TahoeAPIEndpoint : string;
  LocalAPIEndpoint : string;
  DevnetAPIEndpoint : string
}.

(** [NetworkKind.String]. *)
Definition NetworkKind_String (nk : NetworkKind) : string :=
  match nk with
  | Mainnet => "Mainnet"
  | Tahoe => "Tahoe"
  | Local => "Local Network"
  | Devnet => "Devnet"
  | Undefined => "invalid network"
  end.

(** [var UndefinedNetwork = Network{}]: every field at its zero value. *)
Definition UndefinedNetwork : Network :=
  {| Kind := Undefined; ID := 0; Endpoint := ""; ClusterName := "" |}.

Definition NewNetwork (kind : NetworkKind) (id : Z) (endpoint : string)
    (clusterName : string) : Network :=
  {| Kind := kind; ID := id; Endpoint := endpoint;
     ClusterName := clusterName |}.

Definition NewLocalNetwork (c : NetConstants) : Network :=
  NewNetwork Local (LocalNetworkID c) (LocalAPIEndpoint c) "".


Definition NewTahoeNetwork (c : NetConstants) : Network :=
  NewNetwork Tahoe (TahoeID c) (TahoeAPIEndpoint c) "".

Definition NewMainnetNetwork (c : NetConstants) : Network :=
  NewNetwork Mainnet (MainnetID c) (MainnetAPIEndpoint c) "".


(** The [switch] takes the first case that matches. *)
Definition NetworkFromNetworkID (c : NetConstants) (networkID : Z) : Network :=
  if networkID =? MainnetID c then NewMainnetNetwork c
  else if networkID =? TahoeID c then NewTahoeNetwork c
  else if networkID =? LocalNetworkID c then NewLocalNetwork c
  else UndefinedNetwork.

(** [Network.Name]. *)
Definition Name (n : Network) : string :=
  if negb (ClusterName n =? "")%string then
    String.append "Cluster " (ClusterName n)
  else
    let name := NetworkKind_String (Kind n) in
    match Kind n with
    | Devnet => String.append name (String.append " " (Endpoint n))
    | _ => name
    end.

(** [fmt.Sprintf("%s/ext/bc/%s/rpc", n.Endpoint, blockchainID)]. *)
Definition BlockchainEndpoint (n : Network) (blockchainID : string) : string :=
  String.append (Endpoint n)
    (String.append "/ext/bc/" (String.append blockchainID "/rpc")).

Definition CChainEndpoint (n : Network) : string := BlockchainEndpoint n "C".

(** What is left of [s] after [prefix], when [s] starts with it. *)
Fixpoint dropPrefix (prefix s : string) : option string :=
  match prefix with
  | EmptyString => Some s
  | String a prefix' =>
      match s with
      | EmptyString => None
      | String b s' =>
          if Ascii.eqb a b then dropPrefix prefix' s' else None
      end
  end.

(** [strings.TrimPrefix]: [s] without the leading [prefix], or [s] itself
    when it does not start with it. *)
Definition TrimPrefix (s prefix : string) : string :=
  match dropPrefix prefix s with
  | Some rest => rest
  | None => s
  end.

(** [Network.BlockchainWSEndpoint]. *)
Definition BlockchainWSEndpoint (n : Network) (blockchainID : string)
    : string :=
  let trimmedURI := Endpoint n in
  let trimmedURI := TrimPrefix trimmedURI "http://" in
  let trimmedURI := TrimPrefix trimmedURI "https://" in
  String.append "ws://"
    (String.append trimmedURI
       (String.append "/ext/bc/" (String.append blockchainID "/ws"))).

Definition CChainWSEndpoint (n : Network) : string :=
  BlockchainWSEndpoint n "C".

(** [%d] of an unsigned integer. *)
Definition sprintf_d (z : Z) : string :=
  NilZero.string_of_uint (N.to_uint (Z.to_N z)).

(** [Network.NetworkIDFlagValue]. *)
Definition NetworkIDFlagValue (n : Network) : string :=
  match Kind n with
  | Local => String.append "network-" (sprintf_d (ID n))
  | Devnet => String.append "network-" (sprintf_d (ID n))
  | Tahoe => "tahoe"
  | Mainnet => "mainnet"
  | Undefined => "invalid-network"
  end.

(** [Network.HandlePublicNetworkSimulation], with [env] the value of the
    environment variable it reads; the receiver is returned updated. *)
Definition HandlePublicNetworkSimulation (c : NetConstants) (env : string)
    (n : Network) : Network :=
  if negb (env =? "")%string then
    {| Kind := Local; ID := LocalNetworkID c;
       Endpoint := LocalAPIEndpoint c; ClusterName := ClusterName n |}
  else n.

(** ** Network constants used as an example *)

Definition testConstants : NetConstants :=
  {| MainnetID := 1; TahoeID := 5; LocalNetworkID := 1337;
     DevnetNetworkID := 1338;
     MainnetAPIEndpoint := "https://api.example.network";
     TahoeAPIEndpoint := "https://tahoe.example.network";
     LocalAPIEndpoint := "http://127.0.0.1:9650";
     DevnetAPIEndpoint := "" |}.

(** ** [transferF] with every input on the command line: definitions *)

(** Every input is given: a step, a destination, a key name or a ledger
    index, an amount, and for a send a target address. *)
Definition fullySpecified (f : Flags) : bool :=
  (send f || receive f) && (PToP f || PToX f) &&
  negb ((keyName f =? "")%string && (ledgerIndex f =? wrongLedgerIndexVal)) &&
  negb (PrimFloat.eqb (amountFlt f) 0) &&
  (negb (send f) || negb (receiverAddrStr f =? "")%string).

(** The checks of lines 296-302 pass. *)
Definition validFlags (f : Flags) : bool :=
  negb (send f && receive f) &&
  negb (negb (keyName f =? "")%string
        && negb (ledgerIndex f =? wrongLedgerIndexVal)).

(** The prompts other than the confirmation. *)
Definition otherPrompt (e : Event) : bool :=
  match e with
  | EvCaptureList _ => true
  | EvGetFujiKeyOrLedger _ => true
  | EvCaptureUint32 _ => true
  | EvCaptureFloat _ => true
  | EvCapturePChainAddress => true
  | EvCaptureXChainAddress => true
  | _ => false
  end.

Definition unasked (e : Event) : Prop := otherPrompt e = false.

(** ** The send branch: definitions *)

(** The error [transferF] returns when the operation [op] of a send fails:
    that of the wallet as it is, the others wrapped by stage. *)
Definition sendErrorOf (op : ChainOp) (e : error) : Prop :=
  match op with
  | OpMakeWallet => True
  | OpNewExportTx _ _ => exists cause, e = ErrBuildingTx cause
  | OpSign => exists cause, e = ErrSigningTx cause
  | OpIssueTx =>
      exists cause, e = ErrTimeoutIssuing cause \/ e = ErrIssuing cause
  | _ => False
  end.

Definition isRestart (e : Event) : bool :=
  match e with
  | EvPrint MsgRestartSame => true
  | EvPrint (MsgRestartStep _ _) => true
  | _ => false
  end.

(** A world in which the ledger, or the key, refuses to sign an export. *)
Definition signFailsWorld : World :=
  {| genesis := genesis (happyWorld 10 ["alice"] true);
     uint64_oob := uint64_oob (happyWorld 10 ["alice"] true);
     GetNetworkFromCmdLineFlags := Ok testNetwork;
     CaptureList := fun _ options => Ok (hd "" options);
     GetKeyDir := "keys";
     GetFujiKeyOrLedger := fun _ _ => Ok (false, "alice");
     CaptureUint32 := fun _ => Ok 0;
     CaptureFloat := fun _ _ => Ok 1%float;
     GetKeyPath := fun name => String.append "keys/" name;
     LoadSoft := fun _ _ => Ok ["alice"];
     ledger_New := Ok tt;
     NewLedgerKeychainFromIndices := fun _ => Ok ["alice"];
     CapturePChainAddress := fun _ _ => Ok "bob";
     CaptureXChainAddress := fun _ _ => Ok "bob";
     ParseToID := fun s => Ok s;
     GetHRP := fun _ => "local";
     Format := fun chainID _ addr =>
                 Ok (String.append chainID (String.append "-" addr));
     CaptureNoYes := fun _ => Ok true;
     MakeWallet := fun _ _ _ => Ok okWallet;
     P_NewExportTx := fun _ _ _ _ => Ok "export";
     P_Sign := fun _ => Err (ErrExternal "rejected on the device");
     P_IssueTx := fun _ => Issued;
     X_NewImportTx := fun _ _ => Ok "import";
     X_Sign := fun _ => Ok tt;
     X_IssueTx := fun _ => Issued;
     IssueXToPExportTx := fun _ _ _ _ _ _ => Ok "tx1";
     IssuePFromXImportTx := fun _ _ _ _ => Ok "tx2" |}.

(** ** The receive branch: definitions *)

(** The wallet operations of the block guarded by the cursor value [k],
    all succeeding. *)
Definition receiveOps (ledger : bool) (amt : Z) (to : OutputOwners) (k : Z)
    : list Event :=
  if k =? 0 then
    [EvChain (RecvSite 0) OpMakeWallet false;
     EvChain (RecvSite 0) (OpNewImportTx to) false;
     EvChain (RecvSite 0) OpSign false;
     EvChain (RecvSite 0) OpIssueTx false]
  else if k =? 1 then
    [EvChain (RecvSite 1) OpMakeWallet false;
     EvChain (RecvSite 1) (OpIssueXToPExportTx ledger amt to) false]
  else if k =? 2 then
    [EvChain (RecvSite 2) OpMakeWallet false;
     EvChain (RecvSite 2) (OpIssuePFromXImportTx ledger to) false]
  else [].

(** The blocks a receive goes through when nothing fails, by the cursor it
    starts from and the destination. *)
Definition receiveBlocks (f : Flags) : list Z :=
  let c := receiveRecoveryStep f in
  if c =? 0 then (if PToX f then [0] else [0; 1; 2])
  else if c =? 1 then [1; 2]
  else if c =? 2 then [2]
  else [].

Definition receivePlan (f : Flags) (env : Env) : list Event :=
  flat_map
    (receiveOps (usingLedger f)
       (add64 (env_amount env) (mul64 (env_fee env) 1))
       (ownersOf (env_receiverAddr env)))
    (receiveBlocks f).

(** ** Declining, and a network of no kind: definitions *)

(** The events before the fee is read: the network resolver and the
    prompts for what the flags leave open. *)
Definition beforeFee (e : Event) : bool :=
  match e with
  | EvGetNetwork => true
  | EvCaptureList _ => true
  | EvGetFujiKeyOrLedger _ => true
  | EvCaptureUint32 _ => true
  | EvCaptureFloat _ => true
  | _ => false
  end.

(** A world whose network resolver answers with the network of an unknown
    identifier. *)
Definition unknownNetworkWorld : World :=
  {| genesis := genesis signFailsWorld;
     uint64_oob := uint64_oob signFailsWorld;
     GetNetworkFromCmdLineFlags := Ok (NetworkFromNetworkID testConstants 7);
     CaptureList := CaptureList signFailsWorld;
     GetKeyDir := GetKeyDir signFailsWorld;
     GetFujiKeyOrLedger := GetFujiKeyOrLedger signFailsWorld;
     CaptureUint32 := CaptureUint32 signFailsWorld;
     CaptureFloat := CaptureFloat signFailsWorld;
     GetKeyPath := GetKeyPath signFailsWorld;
     LoadSoft := LoadSoft signFailsWorld;
     ledger_New := ledger_New signFailsWorld;
     NewLedgerKeychainFromIndices := NewLedgerKeychainFromIndices signFailsWorld;
     CapturePChainAddress := CapturePChainAddress signFailsWorld;
     CaptureXChainAddress := CaptureXChainAddress signFailsWorld;
     ParseToID := ParseToID signFailsWorld;
     GetHRP := GetHRP signFailsWorld;
     Format := Format signFailsWorld;
     CaptureNoYes := CaptureNoYes signFailsWorld;
     MakeWallet := MakeWallet signFailsWorld;
     P_NewExportTx := P_NewExportTx signFailsWorld;
     P_Sign := P_Sign signFailsWorld;
     P_IssueTx := P_IssueTx signFailsWorld;
     X_NewImportTx := X_NewImportTx signFailsWorld;
     X_Sign := X_Sign signFailsWorld;
     X_IssueTx := X_IssueTx signFailsWorld;
     IssueXToPExportTx := IssueXToPExportTx signFailsWorld;
     IssuePFromXImportTx := IssuePFromXImportTx signFailsWorld |}.

(** ** The source of the keys: definitions *)

(** The calls to the key store and to the ledger. *)
Definition isStore (e : Event) : bool :=
  match e with
  | EvLoadSoft _ _ => true
  | EvLedgerNew => true
  | EvLedgerKeychain _ _ => true
  | _ => false
  end.

(** One key file read, or the ledger opened and at most one keychain built
    from it, or nothing. *)
Definition oneSource (t : list Event) : bool :=
  match filter isStore t with
  | [] => true
  | [EvLoadSoft _ _] => true
  | [EvLedgerNew] => true
  | [EvLedgerNew; EvLedgerKeychain [_] _] => true
  | _ => false
  end.

(** No call to the ledger, and no key file read but [path]. *)
Definition keySource (path : string) (e : Event) : bool :=
  match e with
  | EvLoadSoft p _ => (p =? path)%string
  | EvLedgerNew => false
  | EvLedgerKeychain _ _ => false
  | _ => true
  end.

(** No key file read, and no keychain built from the ledger but that of
    the index [i]. *)
Definition ledgerSource (i : Z) (e : Event) : bool :=
  match e with
  | EvLoadSoft _ _ => false
  | EvLedgerKeychain [j] _ => j =? i
  | EvLedgerKeychain _ _ => false
  | _ => true
  end.

(** A send of 1.5 to the P-Chain signed by the ledger, index 3. *)
Definition ledgerFlags : Flags :=
  set_ledgerIndex 3 (set_keyName "" scenarioFlags).

(** ** Prompts and flags: definitions *)

(** The flag a prompt stands in for is not set: [true] for every event
    that is not such a prompt. *)
Definition missing (f : Flags) (e : Event) : bool :=
  match e with
  | EvCaptureList label =>
      if (label =? "Step of the transfer")%string
      then negb (send f) && negb (receive f)
      else negb (PToP f) && negb (PToX f)
  | EvGetFujiKeyOrLedger _ =>
      (keyName f =? "")%string && (ledgerIndex f =? wrongLedgerIndexVal)
  | EvCaptureUint32 _ =>
      (keyName f =? "")%string && (ledgerIndex f =? wrongLedgerIndexVal)
  | EvCaptureFloat _ => PrimFloat.eqb (amountFlt f) 0
  | EvCapturePChainAddress => (receiverAddrStr f =? "")%string
  | EvCaptureXChainAddress => (receiverAddrStr f =? "")%string
  | _ => true
  end.

(** The prompts of lines 315-381. *)
Definition inputPrompt (e : Event) : bool :=
  match e with
  | EvCaptureList _ => true
  | EvGetFujiKeyOrLedger _ => true
  | EvCaptureUint32 _ => true
  | EvCaptureFloat _ => true
  | _ => false
  end.

(** ** The hosts of a cluster (package node): definitions *)

(** The two fields of a node's configuration that [GetAWMRelayerHost]
    reads. *)
Record NodeConfig := {
  NodeID : string;
  IsAWMRelayer : bool
}.

(** What [GetHostWithCloudID] and [GetAWMRelayerHost] call: the paths and
    the configurations of the application, the reader of an inventory file,
    the file system, and the cloud identifier of a host. A cluster
    configuration is read through [GetCloudIDs] alone. *)
Record Inventory (Host : Type) := {
  GetCloudID : Host -> string;
  GetAnsibleInventoryDirPath : string -> string;
  GetMonitoringInventoryDir : string -> string;
  FileExists : string -> bool;
  GetInventoryFromAnsibleInventoryFile : string -> result (list Host);
  GetCloudIDs : string -> result (list string);
  LoadClusterNodeConfig : string -> result NodeConfig
}.
Arguments GetCloudID {Host} _ _.
Arguments GetAnsibleInventoryDirPath {Host} _ _.
Arguments GetMonitoringInventoryDir {Host} _ _.
Arguments FileExists {Host} _ _.
Arguments GetInventoryFromAnsibleInventoryFile {Host} _ _.
Arguments GetCloudIDs {Host} _ _.
Arguments LoadClusterNodeConfig {Host} _ _.

(** The loop of [GetHostWithCloudID]: the first host of the cloud
    identifier, [None] for Go's nil. *)
Fixpoint firstWithCloudID {Host} (app : Inventory Host) (hosts : list Host)
    (cloudID : string) : option Host :=
  match hosts with
  | [] => None
  | host :: rest =>
      if (GetCloudID app host =? cloudID)%string then Some host
      else firstWithCloudID app rest cloudID
  end.

(** The hosts [GetHostWithCloudID] searches: those of the cluster's
    inventory, followed by those of the monitoring inventory when its file
    exists. *)
Definition allHosts {Host} (app : Inventory Host) (clusterName : string)
    : result (list Host) :=
  match GetInventoryFromAnsibleInventoryFile app
          (GetAnsibleInventoryDirPath app clusterName) with
  | Err e => Err e
  | Ok hosts =>
      let monitoringInventoryFile :=
        GetMonitoringInventoryDir app clusterName in
      if FileExists app monitoringInventoryFile then
        match GetInventoryFromAnsibleInventoryFile app
                monitoringInventoryFile with
        | Err e => Err e
        | Ok monitoringHosts => Ok (hosts ++ monitoringHosts)
        end
      else Ok hosts
  end.

Definition GetHostWithCloudID {Host} (app : Inventory Host)
    (clusterName cloudID : string) : result (option Host) :=
  match allHosts app clusterName with
  | Err e => Err e
  | Ok hosts => Ok (firstWithCloudID app hosts cloudID)
  end.

(** The loop of [GetAWMRelayerHost] over the cloud identifiers of the
    cluster, from the current value of [relayerCloudID]. *)
Fixpoint relayerLoop {Host} (app : Inventory Host) (cloudIDs : list string)
    (relayerCloudID : string) : result string :=
  match cloudIDs with
  | [] => Ok relayerCloudID
  | cloudID :: rest =>
      match LoadClusterNodeConfig app cloudID with
      | Err e => Err e
      | Ok nodeConfig =>
          relayerLoop app rest
            (if IsAWMRelayer nodeConfig then NodeID nodeConfig
             else relayerCloudID)
      end
  end.

Definition GetAWMRelayerHost {Host} (app : Inventory Host)
    (clusterName : string) : result (option Host) :=
  match GetCloudIDs app clusterName with
  | Err e => Err e
  | Ok cloudIDs =>
      match relayerLoop app cloudIDs "" with
      | Err e => Err e
      | Ok relayerCloudID => GetHostWithCloudID app clusterName relayerCloudID
      end
  end.

(** A cluster of two nodes, the second the relayer, and a monitoring host
    that answers to the relayer's identifier as well. A host is its name
    and its cloud identifier. *)
Definition testInventory : Inventory (string * string) :=
  {| GetCloudID := snd;
     GetAnsibleInventoryDirPath := fun c => String.append "inventories/" c;
     GetMonitoringInventoryDir :=
       fun c => String.append "inventories/" (String.append c "/monitoring");
     FileExists := fun _ => true;
     GetInventoryFromAnsibleInventoryFile :=
       fun p => if (p =? "inventories/c1")%string
                then Ok [("node1", "i-1"); ("node2", "i-2")]
                else Ok [("monitor", "i-2")];
     GetCloudIDs := fun _ => Ok ["i-1"; "i-2"];
     LoadClusterNodeConfig :=
       fun c => Ok {| NodeID := c;
                      IsAWMRelayer := (c =? "i-2")%string |} |}.

(** * Proofs *)

(** ** Runs of the monad *)

Lemma bind_continue {A B} (m : M A) (k : A -> M B) f a f1 t1 :
  m f = (Continue a, f1, t1) ->
  bind m k f = (outcome (k a f1), final (k a f1), t1 ++ events (k a f1)).
Proof.
  intros H. unfold bind. rewrite H.
  destruct (k a f1) as [[o f2] t2]. reflexivity.
Qed.

Lemma bind_return {A B} (m : M A) (k : A -> M B) f e f1 t1 :
  m f = (Return e, f1, t1) -> bind m k f = (Return e, f1, t1).
Proof. intros H. unfold bind. rewrite H. reflexivity. Qed.

Lemma bind_panic {A B} (m : M A) (k : A -> M B) f f1 t1 :
  m f = (Panic, f1, t1) -> bind m k f = (Panic, f1, t1).
Proof. intros H. unfold bind. rewrite H. reflexivity. Qed.

(** A [bind] that goes on has gone through both halves. *)
Lemma bind_inv {A B} (m : M A) (k : A -> M B) f b f2 t :
  bind m k f = (Continue b, f2, t) ->
  exists a f1 t1 t2,
    m f = (Continue a, f1, t1) /\ k a f1 = (Continue b, f2, t2) /\
    t = t1 ++ t2.
Proof.
  unfold bind. destruct (m f) as [[o f1] t1]. destruct o as [a | e | ].
  - destruct (k a f1) as [[o2 f2'] t2] eqn:Hk. intros H.
    inversion H; subst. exists a, f1, t1, t2. auto.
  - discriminate.
  - discriminate.
Qed.

Lemma run_eta {A} (r : Outcome A * Flags * list Event) :
  r = (outcome r, final r, events r).
Proof. destruct r as [[o f] t]. reflexivity. Qed.

Section Keeps.
Variable R : Flags -> Flags -> Prop.
Variable P : Event -> Prop.
Hypothesis R_refl : forall f, R f f.
Hypothesis R_trans : forall f g h, R f g -> R g h -> R f h.

Lemma keeps_ret {A} (a : A) : keeps R P (ret a).
Proof. intros f. split; [apply R_refl | constructor]. Qed.

Lemma keeps_get : keeps R P get.
Proof. intros f. split; [apply R_refl | constructor]. Qed.

Lemma keeps_fail {A} (e : error) : keeps R P (@fail A e).
Proof. intros f. split; [apply R_refl | constructor]. Qed.

Lemma keeps_returnNil {A} : keeps R P (@returnNil A).
Proof. intros f. split; [apply R_refl | constructor]. Qed.

Lemma keeps_panic {A} : keeps R P (@panic A).
Proof. intros f. split; [apply R_refl | constructor]. Qed.

Lemma keeps_lift {A} (r : result A) : keeps R P (lift r).
Proof. destruct r; [apply keeps_ret | apply keeps_fail]. Qed.

Lemma keeps_index0 {A} (xs : list A) : keeps R P (index0 xs).
Proof. destruct xs; [apply keeps_panic | apply keeps_ret]. Qed.

Lemma keeps_emit (e : Event) : P e -> keeps R P (emit e).
Proof.
  intros He f. split; [apply R_refl | repeat constructor; exact He].
Qed.

Lemma keeps_modify (g : Flags -> Flags) :
  (forall f, R f (g f)) -> keeps R P (modify g).
Proof. intros Hg f. split; [apply Hg | constructor]. Qed.

Lemma keeps_bind {A B} (m : M A) (k : A -> M B) :
  keeps R P m -> (forall a, keeps R P (k a)) -> keeps R P (bind m k).
Proof.
  intros Hm Hk f. destruct (Hm f) as [HR HP].
  destruct (m f) as [[o f1] t1] eqn:Hmf. destruct o as [a | e | ].
  - rewrite (bind_continue _ _ _ _ _ _ Hmf).
    destruct (Hk a f1) as [HR2 HP2]. split.
    + exact (R_trans _ _ _ HR HR2).
    + apply Forall_app. split; assumption.
  - rewrite (bind_return _ _ _ _ _ _ Hmf). split; assumption.
  - rewrite (bind_panic _ _ _ _ _ Hmf). split; assumption.
Qed.

Lemma keeps_when (b : bool) (m : M unit) :
  keeps R P m -> keeps R P (when b m).
Proof. intros Hm. destruct b; [exact Hm | apply keeps_ret]. Qed.

Lemma keeps_chain {A} site op (r : result A) (onErr : error -> M A) :
  P (EvChain site op (isErr r)) ->
  (forall e, keeps R P (onErr e)) ->
  keeps R P (chain site op r onErr).
Proof.
  intros He Hk. unfold chain. apply keeps_bind.
  - apply keeps_emit. exact He.
  - intros _. destruct r; [apply keeps_ret | apply Hk].
Qed.
End Keeps.

Lemma anyFlags_refl f : anyFlags f f.
Proof. exact I. Qed.

Lemma anyFlags_trans f g h : anyFlags f g -> anyFlags g h -> anyFlags f h.
Proof. intros _ _. exact I. Qed.

Lemma sameCursor_refl f : sameCursor f f.
Proof. split; reflexivity. Qed.

Lemma sameCursor_trans f g h :
  sameCursor f g -> sameCursor g h -> sameCursor f h.
Proof. intros [A1 A2] [B1 B2]. split; congruence. Qed.

Lemma sameMode_refl f : sameMode f f.
Proof. repeat split; reflexivity. Qed.

Lemma sameMode_trans f g h : sameMode f g -> sameMode g h -> sameMode f h.
Proof.
  intros (A1 & A2 & A3 & A4 & A5) (B1 & B2 & B3 & B4 & B5).
  repeat split; congruence.
Qed.

Lemma sameDest_refl f : sameDest f f.
Proof. repeat split; reflexivity. Qed.

Lemma sameDest_trans f g h : sameDest f g -> sameDest g h -> sameDest f h.
Proof.
  intros (A1 & A2 & A3) (B1 & B2 & B3). repeat split; congruence.
Qed.

(** The side conditions of the rules: the relation is a preorder. *)
Ltac preorder :=
  first [ exact anyFlags_refl | exact anyFlags_trans
        | exact sameDest_refl | exact sameDest_trans
        | exact sameCursor_refl | exact sameCursor_trans
        | exact sameMode_refl | exact sameMode_trans ].

(** One step of a [keeps] derivation. *)
Ltac keeps_step :=
  match goal with
  | |- forall _, _ => intros ?
  | |- keeps _ _ (bind _ _) => apply keeps_bind; try preorder
  | |- keeps _ _ (ret _) => apply keeps_ret; preorder
  | |- keeps _ _ get => apply keeps_get; preorder
  | |- keeps _ _ (fail _) => apply keeps_fail; preorder
  | |- keeps _ _ returnNil => apply keeps_returnNil; preorder
  | |- keeps _ _ panic => apply keeps_panic; preorder
  | |- keeps _ _ (lift _) => apply keeps_lift; preorder
  | |- keeps _ _ (index0 _) => apply keeps_index0; preorder
  | |- keeps _ _ (when _ _) => apply keeps_when; try preorder
  | |- keeps _ _ (emit _) => apply keeps_emit; [preorder | reflexivity]
  | |- keeps _ _ (print _) => apply keeps_emit; [preorder | reflexivity]
  | |- keeps _ _ (modify _) =>
      apply keeps_modify; intros ?; repeat split; reflexivity
  | |- keeps _ _ (chain _ _ _ _) =>
      apply keeps_chain; try preorder; try reflexivity
  | |- keeps _ _ (if ?b then _ else _) => destruct b
  | |- keeps _ _ (match ?r with Ok _ => _ | Err _ => _ end) => destruct r
  | |- keeps _ _ (match ?r with Some _ => _ | None => _ end) => destruct r
  | |- keeps _ _ (let _ := _ in _) => cbv zeta
  end.

Ltac keeps_auto := repeat keeps_step.

(** ** What each part of the preparation leaves alone *)

Lemma gatherInputs_quiet w : keeps sameCursor isQuiet (gatherInputs w).
Proof.
  unfold gatherInputs, checkFlags, resolveNetwork, selectStep,
    selectDestination, selectSigner, captureAmount, genesisFee, loadKeychain.
  keeps_auto.
Qed.

Lemma resolveReceiver_quiet w network kc :
  keeps sameCursor isQuiet (resolveReceiver w network kc).
Proof. unfold resolveReceiver. keeps_auto. Qed.

Lemma gather_quiet w : keeps sameCursor isQuiet (gather w).
Proof.
  unfold gather. apply keeps_bind; try preorder.
  - apply gatherInputs_quiet.
  - intros i. apply keeps_bind; try preorder.
    + apply resolveReceiver_quiet.
    + intros a. keeps_auto.
Qed.

Lemma quiet_calm e : isQuiet e -> isCalm e.
Proof.
  unfold isQuiet, isCalm, quiet. intros H.
  destruct (is_chain e); destruct (is_confirm e); simpl in H;
    try discriminate; split; reflexivity.
Qed.

Ltac keeps_calm :=
  repeat first [ keeps_step
               | match goal with
                 | |- keeps _ isCalm (emit _) =>
                     apply keeps_emit; [preorder | split; reflexivity]
                 | |- keeps _ isCalm (print _) =>
                     apply keeps_emit; [preorder | split; reflexivity]
                 end ].

Lemma printSummary_calm w env : keeps sameMode isCalm (printSummary w env).
Proof. unfold printSummary. keeps_calm. Qed.

Lemma printSummary_cursor w env :
  keeps sameCursor isCalm (printSummary w env).
Proof. unfold printSummary. keeps_calm. Qed.

Lemma confirm_cursor w :
  keeps sameCursor (fun e => is_chain e = false) (confirm w).
Proof. unfold confirm. keeps_auto. Qed.

Lemma execute_unprompted w env : keeps anyFlags isUnprompted (execute w env).
Proof.
  unfold execute, sendFlow, receiveFlow, receiveStep0, receiveStep1,
    receiveStep2, restartSame, restartStep, advance.
  keeps_auto.
Qed.

(** ** Inverting the preparation *)

Ltac invert_bind H :=
  let a := fresh "a" in let fa := fresh "fa" in
  let ta := fresh "ta" in let tb := fresh "tb" in
  let Hm := fresh "Hm" in let Ht := fresh "Ht" in
  apply bind_inv in H; destruct H as (a & fa & ta & tb & Hm & H & Ht).

Lemma keeps_run {A} R P (m : M A) f o f1 t :
  keeps R P m -> m f = (o, f1, t) -> R f f1 /\ Forall P t.
Proof. intros K H. specialize (K f). rewrite H in K. exact K. Qed.

Lemma selectStep_mode w f a f' t :
  selectStep w f = (Continue a, f', t) ->
  receiveMode w f = true -> send f' = false.
Proof.
  unfold selectStep, receiveMode, bind, get, when, emit, lift, modify, ret, fail.
  intros H M. destruct f as [s r ? ? ? ? ? ? ? ?]; simpl in *.
  destruct s; [discriminate | ]. destruct r; simpl in *.
  - inversion H; subst. reflexivity.
  - destruct (CaptureList w _ _) as [o | e]; simpl in *; [ | discriminate].
    destruct (o =? "Send")%string; [discriminate | ].
    simpl in H. inversion H; subst. reflexivity.
Qed.

Lemma selectDestination_chosen w f a f' t :
  selectDestination w f = (Continue a, f', t) ->
  PToP f' || PToX f' = true /\ send f' = send f.
Proof.
  unfold selectDestination, bind, get, when, emit, lift, modify, ret, fail.
  intros H. destruct f as [? ? ? ? ? ? ? ? x p]; simpl in *.
  destruct p; simpl in *.
  - inversion H; subst. split; reflexivity.
  - destruct x; simpl in *.
    + inversion H; subst. split; reflexivity.
    + destruct (CaptureList w _ _) as [o | e]; simpl in *; [ | discriminate].
      destruct (o =? "P-Chain")%string; simpl in H; inversion H; subst;
        split; reflexivity.
Qed.

Lemma selectSigner_dest w : keeps sameDest anyEvent (selectSigner w).
Proof. unfold selectSigner. keeps_auto. Qed.

Lemma captureAmount_dest w : keeps sameDest anyEvent (captureAmount w).
Proof. unfold captureAmount. keeps_auto. Qed.

Lemma genesisFee_mode w n : keeps sameMode anyEvent (genesisFee w n).
Proof. unfold genesisFee. keeps_auto. Qed.

Lemma loadKeychain_mode w n : keeps sameMode anyEvent (loadKeychain w n).
Proof. unfold loadKeychain. keeps_auto. Qed.

Lemma resolveReceiver_mode w n kc :
  keeps sameMode anyEvent (resolveReceiver w n kc).
Proof. unfold resolveReceiver. keeps_auto. Qed.

Lemma genesisFee_inv w n f fee f' t :
  genesisFee w n f = (Continue fee, f', t) ->
  GenesisParams (genesis w) n = Some {| TxFee := fee |}.
Proof.
  unfold genesisFee. destruct (GenesisParams (genesis w) n) as [[x] | ].
  - unfold ret. intros H. inversion H. reflexivity.
  - discriminate.
Qed.

Lemma loadKeychain_inv w n f kc f' t :
  loadKeychain w n f = (Continue kc, f', t) ->
  exists e, In e t /\ loadedKeychain e = Some kc.
Proof.
  unfold loadKeychain, bind, get, emit, lift, ret, fail. intros H.
  destruct (negb (keyName f =? "")%string); simpl in H.
  - destruct (LoadSoft w (ID n) (GetKeyPath w (keyName f))) as [k | e] eqn:E;
      simpl in H; [ | discriminate].
    inversion H; subst. eexists. split; [left; reflexivity | ].
    simpl. reflexivity.
  - destruct (ledger_New w); simpl in H; [ | discriminate].
    destruct (NewLedgerKeychainFromIndices w [ledgerIndex f]) as [k | e] eqn:E;
      simpl in H; [ | discriminate].
    inversion H; subst. eexists. split; [right; left; reflexivity | ].
    simpl. reflexivity.
Qed.

(** What the inputs are, when they have all been gathered. *)
Lemma gatherInputs_inv w f0 i f1 t0 :
  gatherInputs w f0 = (Continue i, f1, t0) ->
  in_amount i = amountOf w (amountFlt f1) /\
  GenesisParams (genesis w) (in_network i) = Some {| TxFee := in_fee i |} /\
  PToP f1 || PToX f1 = true /\
  (receiveMode w f0 = true -> send f1 = false) /\
  (exists e, In e t0 /\ loadedKeychain e = Some (in_kc i)).
Proof.
  unfold gatherInputs. intros H.
  invert_bind H. invert_bind H. invert_bind H. invert_bind H. invert_bind H.
  invert_bind H. invert_bind H. invert_bind H. invert_bind H.
  unfold ret in H. inversion H; subst; clear H. simpl.
  unfold get in Hm5. inversion Hm5; subst; clear Hm5.
  destruct (selectDestination_chosen _ _ _ _ _ Hm2) as [D1 D2].
  destruct (keeps_run _ _ _ _ _ _ _ (selectSigner_dest w) Hm3) as [(S1 & S2 & S3) _].
  destruct (keeps_run _ _ _ _ _ _ _ (captureAmount_dest w) Hm4) as [(C1 & C2 & C3) _].
  destruct (keeps_run _ _ _ _ _ _ _ (genesisFee_mode w _) Hm6)
    as [(G1 & G2 & G3 & G4 & _) _].
  destruct (keeps_run _ _ _ _ _ _ _ (loadKeychain_mode w _) Hm7)
    as [(L1 & L2 & L3 & L4 & _) _].
  split; [ | split; [ | split; [ | split]]].
  - congruence.
  - exact (genesisFee_inv _ _ _ _ _ _ Hm6).
  - congruence.
  - intros M.
    assert (E : receiveMode w fa0 = receiveMode w f0).
    { unfold checkFlags, bind, get in Hm. simpl in Hm.
      unfold resolveNetwork, bind, emit, lift in Hm0.
      assert (fa = f0).
      { destruct (send f0 && receive f0); [discriminate | ].
        destruct (negb (keyName f0 =? "")%string
                  && negb (ledgerIndex f0 =? wrongLedgerIndexVal));
          [discriminate | ].
        unfold ret in Hm. simpl in Hm. inversion Hm. reflexivity. }
      subst fa. simpl in Hm0.
      destruct (GetNetworkFromCmdLineFlags w); simpl in Hm0;
        [ | discriminate].
      inversion Hm0. reflexivity. }
    rewrite <- E in M.
    pose proof (selectStep_mode _ _ _ _ _ Hm1 M). congruence.
  - destruct (loadKeychain_inv _ _ _ _ _ _ Hm7) as (e & I & L).
    exists e. split; [ | exact L].
    simpl. repeat rewrite in_app_iff. tauto.
Qed.

Lemma resolveReceiver_inv w n kc f a f' t :
  resolveReceiver w n kc f = (Continue a, f', t) ->
  (send f = false -> nth_error kc 0 = Some a) /\
  (send f = true -> ParseToID w (receiverAddrStr f') = Ok a).
Proof.
  unfold resolveReceiver, bind, get, when, emit, lift, modify, ret, fail,
    index0, panic.
  intros H. destruct f as [s ? ? ? ? r ? ? ? p]; simpl in *.
  destruct s; simpl in H.
  - split; [discriminate | intros _].
    destruct (r =? "")%string; simpl in H.
    + destruct p; simpl in H.
      * destruct (CapturePChainAddress w _ n) as [x | e]; simpl in H;
          [ | discriminate].
        destruct (ParseToID w x) eqn:E; simpl in H; [ | discriminate].
        inversion H; subst. simpl. congruence.
      * destruct (CaptureXChainAddress w _ n) as [x | e]; simpl in H;
          [ | discriminate].
        destruct (ParseToID w x) eqn:E; simpl in H; [ | discriminate].
        inversion H; subst. simpl. congruence.
    + destruct (ParseToID w r) eqn:E; simpl in H; [ | discriminate].
      inversion H; subst. simpl. congruence.
  - split; [intros _ | discriminate].
    destruct kc as [ | x rest]; simpl in H; [discriminate | ].
    destruct (Format w _ _ x); simpl in H; [ | discriminate].
    inversion H; subst. reflexivity.
Qed.

(** What the preparation knows when the receiver address is resolved. *)
Lemma gather_inv w f0 env f1 t0 :
  gather w f0 = (Continue env, f1, t0) ->
  env_amount env = amountOf w (amountFlt f1) /\
  GenesisParams (genesis w) (env_network env)
    = Some {| TxFee := env_fee env |} /\
  PToP f1 || PToX f1 = true /\
  (receiveMode w f0 = true -> send f1 = false) /\
  (exists e, In e t0 /\ loadedKeychain e = Some (env_kc env)) /\
  (send f1 = false -> nth_error (env_kc env) 0 = Some (env_receiverAddr env)) /\
  (send f1 = true ->
   ParseToID w (receiverAddrStr f1) = Ok (env_receiverAddr env)) /\
  sameCursor f0 f1 /\ Forall isQuiet t0.
Proof.
  intros H.
  destruct (keeps_run _ _ _ _ _ _ _ (gather_quiet w) H) as [K1 K2].
  unfold gather in H. invert_bind H. invert_bind H.
  unfold ret in H. inversion H; subst; clear H. simpl.
  destruct (gatherInputs_inv _ _ _ _ _ Hm) as (A1 & A2 & A3 & A4 & e & A5 & A6).
  destruct (keeps_run _ _ _ _ _ _ _ (resolveReceiver_mode w _ _) Hm0)
    as [(M1 & M2 & M3 & M4 & _) _].
  destruct (resolveReceiver_inv _ _ _ _ _ _ _ Hm0) as [R1 R2].
  repeat split; try assumption.
  - congruence.
  - congruence.
  - intros X. rewrite M1. auto.
  - exists e. split; [ | exact A6]. repeat rewrite in_app_iff. tauto.
  - intros X. apply R1. congruence.
  - intros X. apply R2. congruence.
  - apply K1.
  - apply K1.
Qed.

(** ** The run of [transferF], stage by stage *)

Lemma transferF_summary_stop w f0 env f1 t0 e f2 t1 :
  gather w f0 = (Continue env, f1, t0) ->
  printSummary w env f1 = (Return e, f2, t1) ->
  transferF w f0 = (Return e, f2, t0 ++ t1).
Proof.
  intros G S. unfold transferF, prepare. apply bind_return.
  rewrite (bind_continue _ _ _ _ _ _ G).
  rewrite (bind_return _ _ _ _ _ _ S). reflexivity.
Qed.

Lemma transferF_confirm_stop w f0 env f1 t0 f2 t1 e f3 t2 :
  gather w f0 = (Continue env, f1, t0) ->
  printSummary w env f1 = (Continue tt, f2, t1) ->
  confirm w f2 = (Return e, f3, t2) ->
  transferF w f0 = (Return e, f3, t0 ++ t1 ++ t2).
Proof.
  intros G S C. unfold transferF, prepare. apply bind_return.
  rewrite (bind_continue _ _ _ _ _ _ G).
  rewrite (bind_continue _ _ _ _ _ _ S).
  rewrite (bind_return _ _ _ _ _ _ C). reflexivity.
Qed.

Lemma prepare_run w f0 env f1 t0 f2 t1 f3 t2 :
  gather w f0 = (Continue env, f1, t0) ->
  printSummary w env f1 = (Continue tt, f2, t1) ->
  confirm w f2 = (Continue tt, f3, t2) ->
  prepare w f0 = (Continue env, f3, t0 ++ t1 ++ t2).
Proof.
  intros G S C. unfold prepare.
  rewrite (bind_continue _ _ _ _ _ _ G).
  rewrite (bind_continue _ _ _ _ _ _ S).
  rewrite (bind_continue _ _ _ _ _ _ C).
  unfold ret. simpl. rewrite app_nil_r. reflexivity.
Qed.

Lemma transferF_run w f0 env f1 t0 :
  prepare w f0 = (Continue env, f1, t0) ->
  transferF w f0 =
    (outcome (execute w env f1), final (execute w env f1),
     t0 ++ events (execute w env f1)).
Proof. intros P. unfold transferF. apply bind_continue. exact P. Qed.

Lemma execute_receive w env f :
  send f = false ->
  execute w env f =
    match receiveFlow w env f with
    | (Continue _, f', t) => (Return None, f', t)
    | r => r
    end.
Proof.
  intros S. unfold execute, bind at 1, get. rewrite S.
  unfold bind at 1.
  destruct (receiveFlow w env f) as [[o f'] t]. destruct o; try reflexivity.
  unfold returnNil. rewrite app_nil_r. reflexivity.
Qed.

Lemma execute_send w env f :
  send f = true ->
  execute w env f =
    match sendFlow w env f with
    | (Continue _, f', t) => (Return None, f', t)
    | r => r
    end.
Proof.
  intros S. unfold execute, bind at 1, get. rewrite S.
  unfold bind at 1.
  destruct (sendFlow w env f) as [[o f'] t]. destruct o; try reflexivity.
  unfold returnNil. rewrite app_nil_r. reflexivity.
Qed.

(** ** C7: a key name together with a ledger index *)




(** ** C6: sending to one's own address *)

(** C6: in a send whose inputs have been gathered and whose sender address
    (the first of the keychain) is the parsed receiver address, a P-Chain
    destination makes the invocation return the same-address error with no
    wallet operation in the trace; with the X-Chain as the only destination
    the check lets the summary through. *)
Theorem self_transfer_rejected (w : World) (f0 f1 : Flags) (env : Env)
    (t0 : list Event) (addr : ShortID) (rest : Keychain) (addrStr : string) :
  gather w f0 = (Continue env, f1, t0) ->
  send f1 = true ->
  env_kc env = addr :: rest ->
  addr = env_receiverAddr env ->
  Format w "P" (GetHRP w (ID (env_network env))) addr = Ok addrStr ->
  (PToP f1 = true ->
   outcome (transferF w f0) = Return (Some ErrSameAddr) /\
   Forall (fun e => is_chain e = false) (events (transferF w f0))) /\
  (PToP f1 = false ->
   printSummary w env f1 =
     (Continue tt, f1,
      [EvPrint MsgBlank; EvPrint MsgGoingTo; EvFormat addr;
       EvPrint (MsgSend (env_amount env) addrStr (receiverAddrStr f1));
       EvPrint (MsgFee (mul64 2 (env_fee env)) addrStr);
       EvPrint MsgBlank])).
Proof.
  intros G S K A F.
  destruct (gather_inv _ _ _ _ _ G) as (_ & _ & D & _ & _ & _ & _ & _ & Q).
  split; intros P.
  - assert (R : printSummary w env f1 =
                (Return (Some ErrSameAddr), f1,
                 [EvPrint MsgBlank; EvPrint MsgGoingTo; EvFormat addr])).
    { unfold printSummary, bind, print, emit, get, index0, lift, ret, fail.
      simpl. rewrite S, K. simpl. rewrite F. simpl.
      rewrite <- A, String.eqb_refl, P. reflexivity. }
    rewrite (transferF_summary_stop _ _ _ _ _ _ _ _ G R). split.
    + reflexivity.
    + simpl. apply Forall_app. split.
      * eapply Forall_impl; [ | exact Q]. intros e He.
        apply (quiet_calm e He).
      * repeat constructor.
  - rewrite P in D. simpl in D.
    unfold printSummary, bind, print, emit, get, index0, lift, ret, fail.
    simpl. rewrite S, K. simpl. rewrite F. simpl.
    rewrite <- A, String.eqb_refl, P, D. reflexivity.
Qed.

Lemma self_transfer_rejected_witness :
  outcome (transferF (happyWorld 10 ["alice"] true) (selfSendFlags true))
    = Return (Some ErrSameAddr) /\
  outcome (printSummary (happyWorld 10 ["alice"] true)
             {| env_network := testNetwork; env_kc := ["alice"];
                env_receiverAddr := "alice";
                env_amount := 1000000000; env_fee := 10 |}
             (selfSendFlags false))
    = Continue tt.
Proof.
  split.
  - refine (proj1 (proj1 (self_transfer_rejected
       (happyWorld 10 ["alice"] true) (selfSendFlags true) (selfSendFlags true)
       {| env_network := testNetwork; env_kc := ["alice"];
          env_receiverAddr := "alice";
          env_amount := 1000000000; env_fee := 10 |}
       _ "alice" [] "P-alice" _ _ _ _ _) _)); vm_compute; reflexivity.
  - rewrite (proj2 (self_transfer_rejected
       (happyWorld 10 ["alice"] true) (selfSendFlags false)
       (selfSendFlags false)
       {| env_network := testNetwork; env_kc := ["alice"];
          env_receiverAddr := "alice";
          env_amount := 1000000000; env_fee := 10 |}
       _ "alice" [] "P-alice" ltac:(vm_compute; reflexivity)
       ltac:(reflexivity) ltac:(reflexivity) ltac:(reflexivity)
       ltac:(reflexivity)) ltac:(reflexivity)).
    reflexivity.
Defined.

Lemma events_gather_stop w f0 o f1 t0 :
  gather w f0 = (o, f1, t0) ->
  (forall env, o <> Continue env) ->
  events (transferF w f0) = t0.
Proof.
  intros G N. unfold transferF, prepare. destruct o as [env | e | ].
  - exfalso. apply (N env). reflexivity.
  - rewrite (bind_return _ _ _ _ _ _ (bind_return _ _ _ _ _ _ G)).
    reflexivity.
  - rewrite (bind_panic _ _ _ _ _ (bind_panic _ _ _ _ _ G)). reflexivity.
Qed.

Lemma events_summary_stop w f0 env f1 t0 o f2 t1 :
  gather w f0 = (Continue env, f1, t0) ->
  printSummary w env f1 = (o, f2, t1) ->
  (forall u, o <> Continue u) ->
  events (transferF w f0) = t0 ++ t1.
Proof.
  intros G S N. destruct o as [u | e | ].
  - exfalso. apply (N u). reflexivity.
  - rewrite (transferF_summary_stop _ _ _ _ _ _ _ _ G S). reflexivity.
  - unfold transferF, prepare.
    erewrite bind_panic; [reflexivity | ].
    rewrite (bind_continue _ _ _ _ _ _ G).
    rewrite (bind_panic _ _ _ _ _ S). reflexivity.
Qed.

(** ** C8: the confirmation gate *)

Lemma confirm_cases w f :
  (force f = true /\ confirm w f = (Continue tt, f, [])) \/
  (force f = false /\
   ((CaptureNoYes w confirmLabel = Ok true /\
     confirm w f = (Continue tt, f, [EvCaptureNoYes confirmLabel])) \/
    (CaptureNoYes w confirmLabel = Ok false /\
     confirm w f =
       (Return None, f, [EvCaptureNoYes confirmLabel; EvPrint MsgCancelled])) \/
    (exists e, CaptureNoYes w confirmLabel = Err e /\
     confirm w f = (Return (Some e), f, [EvCaptureNoYes confirmLabel])))).
Proof.
  unfold confirm, confirmLabel, bind, get, when, emit, print, lift, ret, fail,
    returnNil.
  simpl. destruct (force f); simpl.
  - left. split; reflexivity.
  - right. split; [reflexivity | ].
    destruct (CaptureNoYes w "Confirm transfer") as [[ | ] | e]; simpl.
    + left. split; reflexivity.
    + right. left. split; reflexivity.
    + right. right. exists e. split; reflexivity.
Qed.

(** The trace of an invocation: input events, then the summary, then the
    confirmation, then the execution. *)
Lemma transferF_shape w f :
  exists tg ts tc te,
    events (transferF w f) = tg ++ ts ++ tc ++ te /\
    Forall isQuiet tg /\ Forall isCalm ts /\ Forall isUnprompted te /\
    (force f = true -> tc = []) /\
    (force f = false ->
     (tc = [] /\ te = [] /\
      forall env f1 t0 f2 t1,
        gather w f = (Continue env, f1, t0) ->
        printSummary w env f1 <> (Continue tt, f2, t1)) \/
     (tc = [EvCaptureNoYes confirmLabel] /\
      (te = [] \/ CaptureNoYes w confirmLabel = Ok true)) \/
     (tc = [EvCaptureNoYes confirmLabel; EvPrint MsgCancelled] /\ te = [] /\
      CaptureNoYes w confirmLabel = Ok false)).
Proof.
  destruct (gather w f) as [[og f1] t0] eqn:G.
  destruct (keeps_run _ _ _ _ _ _ _ (gather_quiet w) G) as [[_ GF] GQ].
  destruct og as [env | e | ].
  2, 3: exists t0, [], [], [];
    rewrite (events_gather_stop _ _ _ _ _ G) by discriminate;
    rewrite !app_nil_r;
    repeat split; auto; intros _; left; repeat split; auto;
    intros; congruence.
  destruct (printSummary w env f1) as [[os f2] t1] eqn:S.
  destruct (keeps_run _ _ _ _ _ _ _ (printSummary_cursor w env) S)
    as [[_ SF] SQ].
  destruct os as [[] | e | ].
  2, 3: exists t0, t1, [], [];
    rewrite (events_summary_stop _ _ _ _ _ _ _ _ G S) by discriminate;
    rewrite !app_nil_r;
    repeat split; auto; intros _; left; repeat split; auto;
    intros ? ? ? ? ? G' S'; inversion G'; subst;
    rewrite S in S'; discriminate S'.
  assert (F2 : force f2 = force f) by congruence.
  destruct (confirm_cases w f2) as [[Fc C] | [Fc [[A C] | [[A C] | [e [A C]]]]]].
  - pose proof (prepare_run _ _ _ _ _ _ _ _ _ G S C) as P.
    rewrite (transferF_run _ _ _ _ _ P).
    exists t0, t1, [], (events (execute w env f2)). simpl.
    repeat split; auto.
    + rewrite app_nil_r, <- app_assoc. reflexivity.
    + apply (execute_unprompted w env f2).
    + intros X. congruence.
  - pose proof (prepare_run _ _ _ _ _ _ _ _ _ G S C) as P.
    rewrite (transferF_run _ _ _ _ _ P).
    exists t0, t1, [EvCaptureNoYes confirmLabel], (events (execute w env f2)).
    simpl. repeat split; auto.
    + rewrite <- !app_assoc. reflexivity.
    + apply (execute_unprompted w env f2).
    + intros X. congruence.
  - rewrite (transferF_confirm_stop _ _ _ _ _ _ _ _ _ _ G S C).
    exists t0, t1, [EvCaptureNoYes confirmLabel; EvPrint MsgCancelled], [].
    simpl. repeat split; auto.
    intros X. congruence.
  - rewrite (transferF_confirm_stop _ _ _ _ _ _ _ _ _ _ G S C).
    exists t0, t1, [EvCaptureNoYes confirmLabel], [].
    simpl. repeat split; auto.
    intros X. congruence.
Qed.

Lemma count_app p a b : count p (a ++ b) = (count p a + count p b)%nat.
Proof. unfold count. rewrite filter_app, length_app. reflexivity. Qed.

Lemma count_none p l :
  Forall (fun e => p e = false) l -> count p l = 0%nat.
Proof.
  unfold count. induction 1 as [ | e l He _ IH]; simpl.
  - reflexivity.
  - rewrite He. exact IH.
Qed.

Lemma calm_no_confirm l :
  Forall isCalm l -> Forall (fun e => is_confirm e = false) l.
Proof. apply Forall_impl. intros e [_ H]. exact H. Qed.

Lemma calm_no_chain l :
  Forall isCalm l -> Forall (fun e => is_chain e = false) l.
Proof. apply Forall_impl. intros e [H _]. exact H. Qed.

Lemma quiet_all_calm l : Forall isQuiet l -> Forall isCalm l.
Proof. apply Forall_impl. exact quiet_calm. Qed.

Lemma unprompted_no_confirm l :
  Forall isUnprompted l -> Forall (fun e => is_confirm e = false) l.
Proof.
  apply Forall_impl. intros e. unfold isUnprompted, unprompted.
  destruct (is_confirm e); [discriminate | reflexivity].
Qed.

Lemma chainBeforeConfirm_calm l r :
  Forall isCalm l -> chainBeforeConfirm (l ++ r) = chainBeforeConfirm r.
Proof.
  induction 1 as [ | e l [C1 C2] _ IH]; simpl.
  - reflexivity.
  - rewrite C1, C2. exact IH.
Qed.

Lemma no_chain_in l e :
  Forall (fun e => is_chain e = false) l -> In e l -> is_chain e = true ->
  False.
Proof.
  intros F I C. rewrite Forall_forall in F. rewrite (F e I) in C.
  discriminate.
Qed.

(** C8, as stated, fails: an invocation without [--force] that stops on a
    validation error never reaches the prompt, so the prompt is called
    zero times, not once. *)
Lemma confirmation_once_counterexample :
  ~ (forall (w : World) (f : Flags),
        force f = false ->
        count is_confirm (events (transferF w f)) = 1%nat).
Proof.
  intros H.
  specialize (H (happyWorld 10 ["alice"] true) conflictFlags eq_refl).
  vm_compute in H. discriminate H.
Qed.

(** C8, amended: without [--force] the confirmation prompt is called at
    most once, and exactly once in every invocation that gets through the
    gathering of its inputs and the summary; no wallet operation comes
    before it, and one happens only if the operator answered yes; when the
    operator declines there is none. With [--force] the prompt is never
    called and the confirmation stage does nothing. *)
Theorem confirmation_gate (w : World) (f : Flags) :
  (force f = false ->
   (count is_confirm (events (transferF w f)) <= 1)%nat /\
   chainBeforeConfirm (events (transferF w f)) = false /\
   (forall e, In e (events (transferF w f)) -> is_chain e = true ->
      count is_confirm (events (transferF w f)) = 1%nat /\
      CaptureNoYes w confirmLabel = Ok true) /\
   (CaptureNoYes w confirmLabel = Ok false ->
      Forall (fun e => is_chain e = false) (events (transferF w f))) /\
   (forall env f1 t0 f2 t1,
      gather w f = (Continue env, f1, t0) ->
      printSummary w env f1 = (Continue tt, f2, t1) ->
      count is_confirm (events (transferF w f)) = 1%nat)) /\
  (force f = true ->
   count is_confirm (events (transferF w f)) = 0%nat /\
   confirm w f = (Continue tt, f, [])).
Proof.
  destruct (transferF_shape w f)
    as (tg & ts & tc & te & E & Qg & Qs & Qe & Ft & Ff).
  pose proof (quiet_all_calm _ Qg) as Cg.
  assert (Ng : count is_confirm tg = 0%nat)
    by (apply count_none, calm_no_confirm, Cg).
  assert (Ns : count is_confirm ts = 0%nat)
    by (apply count_none, calm_no_confirm, Qs).
  assert (Ne : count is_confirm te = 0%nat)
    by (apply count_none, unprompted_no_confirm, Qe).
  assert (Chain : forall e, In e (events (transferF w f)) ->
                    is_chain e = true -> In e tc \/ In e te).
  { intros e I C. rewrite E in I. rewrite !in_app_iff in I.
    destruct I as [I | [I | I]]; [ | | exact I].
    - exfalso. exact (no_chain_in _ _ (calm_no_chain _ Cg) I C).
    - exfalso. exact (no_chain_in _ _ (calm_no_chain _ Qs) I C). }
  assert (Cbc : chainBeforeConfirm (events (transferF w f))
                = chainBeforeConfirm (tc ++ te)).
  { rewrite E. rewrite (chainBeforeConfirm_calm _ _ Cg).
    apply chainBeforeConfirm_calm. exact Qs. }
  assert (Cnt : count is_confirm (events (transferF w f))
                = count is_confirm tc).
  { rewrite E, !count_app, Ng, Ns, Ne. simpl. apply Nat.add_0_r. }
  split.
  - intros F. rewrite Cnt, Cbc.
    destruct (Ff F) as [(T1 & T2 & R) | [(T1 & T2) | (T1 & T2 & A)]];
      subst tc; simpl; (split; [ | split; [ | split; [ | split]]]).
    + auto.
    + subst te. reflexivity.
    + subst te. intros e I C. destruct (Chain e I C) as [[] | []].
    + subst te. intros _. rewrite Forall_forall. intros e I.
      destruct (is_chain e) eqn:C; [ | reflexivity].
      destruct (Chain e I C) as [[] | []].
    + intros env f1 t0 f2 t1 G S. exfalso. exact (R _ _ _ _ _ G S).
    + auto.
    + reflexivity.
    + intros e I C. split; [reflexivity | ].
      destruct (Chain e I C) as [[X | []] | X].
      * subst e. discriminate.
      * destruct T2 as [T2 | T2]; [subst te; destruct X | exact T2].
    + intros A. rewrite Forall_forall. intros e I.
      destruct (is_chain e) eqn:C; [ | reflexivity].
      destruct (Chain e I C) as [[X | []] | X].
      * subst e. discriminate.
      * destruct T2 as [T2 | T2]; [subst te; destruct X | congruence].
    + reflexivity.
    + auto.
    + reflexivity.
    + subst te. intros e I C.
      destruct (Chain e I C) as [[X | [X | []]] | []]; subst e; discriminate.
    + subst te. intros _. rewrite Forall_forall. intros e I.
      destruct (is_chain e) eqn:C; [ | reflexivity].
      destruct (Chain e I C) as [[X | [X | []]] | []]; subst e; discriminate.
    + reflexivity.
  - intros F. split.
    + rewrite Cnt, (Ft F). reflexivity.
    + destruct (confirm_cases w f) as [[_ C] | [X _]]; [exact C | congruence].
Qed.

Lemma confirmation_gate_witness :
  count is_confirm
    (events (transferF (happyWorld 10 ["alice"] true) (selfSendFlags false)))
    = 1%nat /\
  chainBeforeConfirm
    (events (transferF (happyWorld 10 ["alice"] true) (selfSendFlags false)))
    = false /\
  count is_confirm
    (events (transferF (happyWorld 10 ["alice"] true)
               (set_receive true conflictFlags))) = 0%nat.
Proof.
  pose proof (confirmation_gate (happyWorld 10 ["alice"] true)
                (selfSendFlags false)) as [G _].
  specialize (G eq_refl). destruct G as (_ & B & _ & _ & R).
  split; [ | split].
  - eapply (R {| env_network := testNetwork; env_kc := ["alice"];
                 env_receiverAddr := "alice";
                 env_amount := 1000000000; env_fee := 10 |}
              (selfSendFlags false) _ (selfSendFlags false));
      vm_compute; reflexivity.
  - exact B.
  - vm_compute. reflexivity.
Defined.

(** ** The receive branch, path by path *)

Ltac atomic_case :=
  match goal with
  | |- context [match ?x with _ => _ end] =>
      lazymatch x with
      | context [match _ with _ => _ end] => fail
      | _ => destruct x eqn:?
      end
  end.

Ltac split_in H :=
  repeat match type of H with
         | _ \/ _ => destruct H as [H | H]
         | False => destruct H
         end.

(** Every path of the receive branch, by the value of the cursor and the
    answers of the wallet. *)
Ltac receive_paths f :=
  unfold receiveFlow, receiveStep0, receiveStep1, receiveStep2, restartSame,
    restartStep, advance, chain, issueResult, bind, get, when, emit, print,
    lift, modify, ret, fail, returnNil, events, outcome, final;
  let c := fresh "c" in
  let N0 := fresh "N0" in let N1 := fresh "N1" in let N2 := fresh "N2" in
  destruct f as [? ? ? ? ? ? ? c ? ?]; simpl;
  destruct (Z.eq_dec c 0) as [-> | N0];
    [ | rewrite (proj2 (Z.eqb_neq _ _) N0); simpl;
        destruct (Z.eq_dec c 1) as [-> | N1];
        [ | rewrite (proj2 (Z.eqb_neq _ _) N1); simpl;
            destruct (Z.eq_dec c 2) as [-> | N2];
            [ | rewrite (proj2 (Z.eqb_neq _ _) N2)]]];
    simpl; repeat (atomic_case; simpl).

Lemma receiveFlow_failure w env f k op :
  In (EvChain (RecvSite k) op true) (events (receiveFlow w env f)) ->
  exists e msg,
    outcome (receiveFlow w env f) = Return (Some e) /\
    skipn (List.length (events (receiveFlow w env f)) - 2)
      (events (receiveFlow w env f))
      = [EvChain (RecvSite k) op true; EvPrint msg] /\
    resumeValue (receiveRecoveryStep f) msg = Some k /\
    receiveRecoveryStep (final (receiveFlow w env f)) = k /\
    forallb (fun x => negb (chainFailed x))
      (firstn (List.length (events (receiveFlow w env f)) - 2)
         (events (receiveFlow w env f))) = true /\
    ~ In (EvChain (RecvSite k) op false)
        (firstn (List.length (events (receiveFlow w env f)) - 2)
           (events (receiveFlow w env f))).
Proof.
  receive_paths f.
  all: intros I; split_in I; try discriminate I.
  all: inversion I; subst; clear I.
  all: do 2 eexists; repeat split; try reflexivity.
  all: intros X; split_in X; discriminate X.
Qed.

(** The wallet operations of a receive resumed at cursor 1. *)
Lemma receiveFlow_from_1 w env f :
  receiveRecoveryStep f = 1 ->
  Forall (fun e => chainAt 0 e = false) (events (receiveFlow w env f)) /\
  (exists n,
      map siteOf (filter is_chain (events (receiveFlow w env f))) =
      firstn n [Some (RecvSite 1); Some (RecvSite 1);
                Some (RecvSite 2); Some (RecvSite 2)]) /\
  (forall w1 tx w2,
      MakeWallet w (RecvSite 1) (Endpoint (env_network env)) (env_kc env)
        = Ok w1 ->
      IssueXToPExportTx w w1 (usingLedger f) true (AVAXAssetID w1)
        (add64 (env_amount env) (mul64 (env_fee env) 1))
        (ownersOf (env_receiverAddr env)) = Ok tx ->
      MakeWallet w (RecvSite 2) (Endpoint (env_network env)) (env_kc env)
        = Ok w2 ->
      filter is_chain (events (receiveFlow w env f)) =
        [EvChain (RecvSite 1) OpMakeWallet false;
         EvChain (RecvSite 1)
           (OpIssueXToPExportTx (usingLedger f)
              (add64 (env_amount env) (mul64 (env_fee env) 1))
              (ownersOf (env_receiverAddr env))) false;
         EvChain (RecvSite 2) OpMakeWallet false;
         EvChain (RecvSite 2)
           (OpIssuePFromXImportTx (usingLedger f)
              (ownersOf (env_receiverAddr env)))
           (isErr (IssuePFromXImportTx w w2 (usingLedger f) true
                     (ownersOf (env_receiverAddr env))))]).
Proof.
  intros C.
  unfold receiveFlow, receiveStep0, receiveStep1, receiveStep2, restartSame,
    restartStep, advance, chain, issueResult, bind, get, when, emit, print,
    lift, modify, ret, fail, returnNil, events, outcome, final.
  destruct f as [? ? ? li ? ? ? c ? ?]; simpl in *. subst c.
  unfold usingLedger. simpl.
  repeat (atomic_case; simpl).
  all: split; [repeat constructor | split].
  all: try (intros w1 tx w2 W1 X W2; try discriminate W1;
            inversion W1; subst;
            try (rewrite X in *; discriminate);
            try discriminate W2;
            try (inversion W2; subst);
            repeat match goal with
                   | E : _ = _ |- _ => rewrite E
                   end;
            reflexivity).
  all: first [ exists 1%nat; reflexivity | exists 2%nat; reflexivity
             | exists 3%nat; reflexivity | exists 4%nat; reflexivity ].
Qed.

Lemma keeps_weaken {A} R (P Q : Event -> Prop) (m : M A) :
  (forall e, P e -> Q e) -> keeps R P m -> keeps R Q m.
Proof.
  intros I K f. destruct (K f) as [K1 K2]. split; [exact K1 | ].
  eapply Forall_impl; [exact I | exact K2].
Qed.

(** The preparation makes no wallet operation and leaves the cursor and
    the force flag as they were. *)
Lemma prepare_no_chain w : keeps sameCursor notChain (prepare w).
Proof.
  unfold prepare. apply keeps_bind; try preorder.
  - apply (keeps_weaken _ isQuiet); [ | apply gather_quiet].
    intros e Q. apply (quiet_calm e Q).
  - intros env. apply keeps_bind; try preorder.
    + apply (keeps_weaken _ isCalm); [ | apply printSummary_cursor].
      intros e [C _]. exact C.
    + intros _. apply keeps_bind; try preorder.
      * apply confirm_cursor.
      * intros _. apply keeps_ret. preorder.
Qed.

Lemma filter_none {A} (p : A -> bool) l :
  Forall (fun e => p e = false) l -> filter p l = [].
Proof.
  induction 1 as [ | e l He _ IH]; simpl; [reflexivity | ].
  rewrite He. exact IH.
Qed.

(** ** C1: a failing receive step *)

(** C1: in a receive whose preparation went through, when a wallet
    operation of the block at cursor [k] fails, the invocation returns an
    error; the failed operation and the resume instruction are the last
    two events of the trace, so nothing runs after the failure and nothing
    is retried; the instruction tells cursor [k]; the cursor variable ends
    at [k]; no operation failed before, and the failing call was not made
    before. *)
Theorem receive_failure_reports_cursor (w : World) (f0 f1 : Flags)
    (env : Env) (t0 : list Event) (k : Z) (op : ChainOp) :
  prepare w f0 = (Continue env, f1, t0) ->
  send f1 = false ->
  In (EvChain (RecvSite k) op true) (events (transferF w f0)) ->
  exists e msg pre,
    outcome (transferF w f0) = Return (Some e) /\
    events (transferF w f0) =
      t0 ++ pre ++ [EvChain (RecvSite k) op true; EvPrint msg] /\
    resumeValue (receiveRecoveryStep f0) msg = Some k /\
    receiveRecoveryStep (final (transferF w f0)) = k /\
    Forall (fun x => chainFailed x = false) (t0 ++ pre) /\
    ~ In (EvChain (RecvSite k) op false) (t0 ++ pre).
Proof.
  intros P S I.
  destruct (keeps_run _ _ _ _ _ _ _ (prepare_no_chain w) P) as [[C _] N].
  rewrite (transferF_run _ _ _ _ _ P) in *.
  rewrite (execute_receive _ _ _ S) in *.
  unfold events at 1 in I. simpl in I. apply in_app_or in I.
  destruct I as [I | I].
  { exfalso. rewrite Forall_forall in N. specialize (N _ I). discriminate N. }
  assert (I' : In (EvChain (RecvSite k) op true) (events (receiveFlow w env f1))).
  { destruct (receiveFlow w env f1) as [[o f2] tr]. destruct o; exact I. }
  clear I.
  destruct (receiveFlow_failure _ _ _ _ _ I')
    as (e & msg & O & L & R & K & F & D).
  pose proof (firstn_skipn
                (List.length (events (receiveFlow w env f1)) - 2)
                (events (receiveFlow w env f1))) as Split.
  rewrite L in Split.
  set (pre := firstn (List.length (events (receiveFlow w env f1)) - 2)
                (events (receiveFlow w env f1))) in *.
  exists e, msg, pre.
  destruct (receiveFlow w env f1) as [[o f2] tr] eqn:E.
  unfold outcome, final, events in *. simpl in *. subst o. simpl.
  repeat split.
  - rewrite <- Split. reflexivity.
  - rewrite <- C. exact R.
  - exact K.
  - apply Forall_app. split.
    + eapply Forall_impl; [ | exact N]. intros x X.
      destruct x; try reflexivity. discriminate X.
    + rewrite forallb_forall in F. rewrite Forall_forall. intros x X.
      specialize (F x X). destruct (chainFailed x); [discriminate | reflexivity].
  - intros X. apply in_app_or in X. destruct X as [X | X].
    + rewrite Forall_forall in N. specialize (N _ X). discriminate N.
    + exact (D X).
Qed.

Lemma receive_failure_reports_cursor_witness :
  exists e msg pre,
    outcome (transferF timeoutWorld (resumeFlags 1)) = Return (Some e) /\
    events (transferF timeoutWorld (resumeFlags 1)) =
      events (prepare timeoutWorld (resumeFlags 1)) ++ pre ++
      [EvChain (RecvSite 1)
         (OpIssueXToPExportTx false 1000000010 (ownersOf "alice")) true;
       EvPrint msg] /\
    resumeValue 1 msg = Some 1 /\
    receiveRecoveryStep (final (transferF timeoutWorld (resumeFlags 1))) = 1.
Proof.
  destruct (receive_failure_reports_cursor timeoutWorld (resumeFlags 1)
              (final (prepare timeoutWorld (resumeFlags 1)))
              {| env_network := testNetwork; env_kc := ["alice"];
                 env_receiverAddr := "alice";
                 env_amount := 1000000000; env_fee := 10 |}
              (events (prepare timeoutWorld (resumeFlags 1)))
              1 (OpIssueXToPExportTx false 1000000010 (ownersOf "alice")))
    as (e & msg & pre & A & B & C & D & _).
  - vm_compute. reflexivity.
  - vm_compute. reflexivity.
  - vm_compute. tauto.
  - exists e, msg, pre. repeat split; assumption.
Defined.

(** ** C2: resuming a receive at cursor 1 *)

(** C2: in a receive whose preparation went through with the cursor
    argument 1, no operation of the first block (the import on the
    X-Chain) is made; the operations made are, in this order, those of the
    export at cursor 1 and then those of the import at cursor 2, and when
    the wallets open and the export succeeds they are exactly these four:
    wallet and export at cursor 1, wallet and import at cursor 2. *)
Theorem resume_at_one_skips_first (w : World) (f0 f1 : Flags) (env : Env)
    (t0 : list Event) :
  prepare w f0 = (Continue env, f1, t0) ->
  send f1 = false ->
  receiveRecoveryStep f0 = 1 ->
  Forall (fun e => chainAt 0 e = false) (events (transferF w f0)) /\
  (exists n,
      map siteOf (filter is_chain (events (transferF w f0))) =
      firstn n [Some (RecvSite 1); Some (RecvSite 1);
                Some (RecvSite 2); Some (RecvSite 2)]) /\
  (forall w1 tx w2,
      MakeWallet w (RecvSite 1) (Endpoint (env_network env)) (env_kc env)
        = Ok w1 ->
      IssueXToPExportTx w w1 (usingLedger f1) true (AVAXAssetID w1)
        (add64 (env_amount env) (mul64 (env_fee env) 1))
        (ownersOf (env_receiverAddr env)) = Ok tx ->
      MakeWallet w (RecvSite 2) (Endpoint (env_network env)) (env_kc env)
        = Ok w2 ->
      filter is_chain (events (transferF w f0)) =
        [EvChain (RecvSite 1) OpMakeWallet false;
         EvChain (RecvSite 1)
           (OpIssueXToPExportTx (usingLedger f1)
              (add64 (env_amount env) (mul64 (env_fee env) 1))
              (ownersOf (env_receiverAddr env))) false;
         EvChain (RecvSite 2) OpMakeWallet false;
         EvChain (RecvSite 2)
           (OpIssuePFromXImportTx (usingLedger f1)
              (ownersOf (env_receiverAddr env)))
           (isErr (IssuePFromXImportTx w w2 (usingLedger f1) true
                     (ownersOf (env_receiverAddr env))))]).
Proof.
  intros P S C.
  destruct (keeps_run _ _ _ _ _ _ _ (prepare_no_chain w) P) as [[C1 _] N].
  assert (C' : receiveRecoveryStep f1 = 1) by congruence.
  destruct (receiveFlow_from_1 w env f1 C') as (A1 & A2 & A3).
  assert (E : events (transferF w f0) = t0 ++ events (receiveFlow w env f1)).
  { rewrite (transferF_run _ _ _ _ _ P), (execute_receive _ _ _ S).
    destruct (receiveFlow w env f1) as [[o f2] tr]. destruct o; reflexivity. }
  rewrite E, filter_app, (filter_none _ _ N). simpl.
  split; [ | split].
  - apply Forall_app. split; [ | exact A1].
    eapply Forall_impl; [ | exact N]. intros e X.
    destruct e; try reflexivity. discriminate X.
  - exact A2.
  - exact A3.
Qed.

Lemma resume_at_one_skips_first_witness :
  map siteOf
    (filter is_chain
       (events (transferF (happyWorld 10 ["alice"] true) (resumeFlags 1)))) =
  [Some (RecvSite 1); Some (RecvSite 1); Some (RecvSite 2); Some (RecvSite 2)].
Proof.
  pose proof (resume_at_one_skips_first (happyWorld 10 ["alice"] true)
                (resumeFlags 1)
                (final (prepare (happyWorld 10 ["alice"] true) (resumeFlags 1)))
                {| env_network := testNetwork; env_kc := ["alice"];
                   env_receiverAddr := "alice";
                   env_amount := 1000000000; env_fee := 10 |}
                (events (prepare (happyWorld 10 ["alice"] true)
                           (resumeFlags 1)))
                ltac:(vm_compute; reflexivity) ltac:(vm_compute; reflexivity)
                ltac:(reflexivity)) as (_ & _ & X).
  rewrite (X okWallet "tx1" okWallet eq_refl eq_refl eq_refl).
  reflexivity.
Defined.

(** ** The stages after the inputs *)

(** Once the inputs are gathered, the trace goes on with the summary, then
    the confirmation, then the execution under flags of the same mode. *)
Lemma transferF_stages w f0 env f1 t0 :
  gather w f0 = (Continue env, f1, t0) ->
  exists tc te,
    events (transferF w f0) =
      t0 ++ events (printSummary w env f1) ++ tc ++ te /\
    Forall plain tc /\
    (te = [] \/
     exists f3, sameMode f1 f3 /\ te = events (execute w env f3)).
Proof.
  intros G.
  destruct (printSummary w env f1) as [[os f2] t1] eqn:S.
  destruct (keeps_run _ _ _ _ _ _ _ (printSummary_calm w env) S) as [M _].
  unfold events at 2. simpl.
  destruct os as [[] | e | ].
  2, 3: exists [], [];
    rewrite (events_summary_stop _ _ _ _ _ _ _ _ G S) by discriminate;
    rewrite !app_nil_r; repeat split; auto; constructor.
  destruct (confirm_cases w f2) as [[Fc C] | [Fc [[A C] | [[A C] | [e [A C]]]]]].
  - pose proof (prepare_run _ _ _ _ _ _ _ _ _ G S C) as P.
    rewrite (transferF_run _ _ _ _ _ P).
    exists [], (events (execute w env f2)). simpl.
    split; [ | split].
    + rewrite app_nil_r, <- app_assoc. reflexivity.
    + constructor.
    + right. exists f2. split; [exact M | reflexivity].
  - pose proof (prepare_run _ _ _ _ _ _ _ _ _ G S C) as P.
    rewrite (transferF_run _ _ _ _ _ P).
    exists [EvCaptureNoYes confirmLabel], (events (execute w env f2)). simpl.
    split; [ | split].
    + rewrite <- !app_assoc. reflexivity.
    + repeat constructor.
    + right. exists f2. split; [exact M | reflexivity].
  - rewrite (transferF_confirm_stop _ _ _ _ _ _ _ _ _ _ G S C).
    exists [EvCaptureNoYes confirmLabel; EvPrint MsgCancelled], []. simpl.
    split; [ | split].
    + reflexivity.
    + repeat constructor.
    + left. reflexivity.
  - rewrite (transferF_confirm_stop _ _ _ _ _ _ _ _ _ _ G S C).
    exists [EvCaptureNoYes confirmLabel], []. simpl.
    split; [ | split].
    + reflexivity.
    + repeat constructor.
    + left. reflexivity.
Qed.

(** ** Machine arithmetic *)

Lemma wrap64_small z : 0 <= z < 2 ^ 64 -> wrap64 z = z.
Proof. intros H. unfold wrap64. apply Z.mod_small. exact H. Qed.

Lemma wrap64_range z : 0 <= wrap64 z < 2 ^ 64.
Proof. unfold wrap64. apply Z.mod_pos_bound. reflexivity. Qed.

Lemma amountOf_range w a : 0 <= amountOf w a < 2 ^ 64.
Proof.
  unfold amountOf, uint64_of_float.
  destruct (trunc_sf (Prim2SF (PrimFloat.mul a float_Avax))) as [z | ].
  - destruct ((0 <=? z) && (z <? 2 ^ 64)) eqn:E.
    + apply andb_prop in E. destruct E as [E1 E2].
      apply Z.leb_le in E1. apply Z.ltb_lt in E2. split; assumption.
    + apply wrap64_range.
  - apply wrap64_range.
Qed.

(** ** C3: the fees *)

Lemma printSummary_fee w env f t a :
  In (EvPrint (MsgFee t a)) (events (printSummary w env f)) ->
  send f = true /\
  t = if PToX f then mul64 2 (env_fee env) else mul64 4 (env_fee env).
Proof.
  unfold printSummary, bind, print, emit, get, index0, lift, ret, fail, panic,
    events.
  destruct f as [s ? ? ? ? ? ? ? px pp]; simpl.
  repeat (atomic_case; simpl).
  all: intros I; split_in I; try discriminate I.
  all: inversion I; subst; split; reflexivity.
Qed.


Lemma receiveFlow_sites w env f :
  Forall receiveSite (events (receiveFlow w env f)).
Proof.
  receive_paths f.
  all: repeat (apply Forall_cons; [simpl; auto | ]); apply Forall_nil.
Qed.




Lemma events_execute w env f :
  events (execute w env f) =
  if send f then events (sendFlow w env f) else events (receiveFlow w env f).
Proof.
  destruct (send f) eqn:S.
  - rewrite (execute_send _ _ _ S).
    destruct (sendFlow w env f) as [[o f'] t]. destruct o; reflexivity.
  - rewrite (execute_receive _ _ _ S).
    destruct (receiveFlow w env f) as [[o f'] t]. destruct o; reflexivity.
Qed.


Lemma plain_no_chain l :
  Forall plain l -> Forall (fun e => is_chain e = false) l.
Proof. apply Forall_impl. intros e [C _]. exact C. Qed.

Lemma not_shown_in l t a :
  Forall (fun e => is_shown e = false) l -> ~ In (EvPrint (MsgFee t a)) l.
Proof.
  intros F I. rewrite Forall_forall in F. specialize (F _ I). discriminate F.
Qed.

Lemma quiet_not_shown l :
  Forall isQuiet l -> Forall (fun e => is_shown e = false) l.
Proof.
  apply Forall_impl. intros e. unfold isQuiet, quiet.
  destruct (is_shown e); [ | reflexivity].
  rewrite andb_false_r. discriminate.
Qed.

Lemma plain_not_shown l :
  Forall plain l -> Forall (fun e => is_shown e = false) l.
Proof. apply Forall_impl. intros e [_ C]. exact C. Qed.

Lemma unprompted_not_shown l :
  Forall isUnprompted l -> Forall (fun e => is_shown e = false) l.
Proof.
  apply Forall_impl. intros e. unfold isUnprompted, unprompted.
  destruct (is_shown e); [ | reflexivity].
  rewrite andb_false_r. discriminate.
Qed.



(** ** C9: the conversion of the amount *)

Lemma truncates_trunc_sf x z : truncates x z -> trunc_sf x = Some z.
Proof.
  destruct x as [s | s | | s m e]; unfold truncates, trunc_sf;
    try contradiction.
  - intros ->. reflexivity.
  - intros [H S]. f_equal. cbv zeta.
    assert (D : forall v, 0 <= v -> Z.abs z = v ->
                          (if s then - v else v) = z).
    { intros v V A. destruct s; lia. }
    destruct e as [ | p | p].
    + apply D; lia.
    + apply D; [ | exact H]. apply Z.mul_nonneg_nonneg; [lia | ].
      apply Z.pow_nonneg. lia.
    + assert (P : 0 < 2 ^ Zpos p) by (apply Z.pow_pos_nonneg; lia).
      apply D.
      * apply Z.div_pos; lia.
      * apply Z.div_unique with (r := Zpos m - Z.abs z * 2 ^ Zpos p); lia.
Qed.




(** The amount 1.5 converts exactly, on every platform. *)
Lemma amountOf_one_and_a_half w : amountOf w 1.5%float = 1500000000.
Proof.
  unfold amountOf, uint64_of_float.
  rewrite (truncates_trunc_sf _ 1500000000).
  - reflexivity.
  - vm_compute. repeat split; first [discriminate | reflexivity].
Qed.

(** ** C5: amounts that are not positive *)

(** The validator of the prompt rejects what is not positive. *)
Lemma amountValidator_rejects v :
  PrimFloat.leb v 0 = true ->
  amountValidator v = Some (ErrMustBeGreaterThanZero v).
Proof. intros H. unfold amountValidator. rewrite H. reflexivity. Qed.

(** An amount given on the command line is not validated: the prompt and
    its validator are skipped as soon as the flag is not zero. *)
Lemma captureAmount_skips w f :
  PrimFloat.eqb (amountFlt f) 0 = false ->
  captureAmount w f = (Continue tt, f, []).
Proof.
  intros H. unfold captureAmount, bind, get, when. simpl. rewrite H.
  reflexivity.
Qed.

(** C5 is broken by the code: with [--amount -1], a value the validator
    of the prompt rejects, the invocation is not rejected. The amount is
    converted (to [2^64 - 10^9] where negative values wrap), shown in the
    summary, and the export is built, signed and issued for it. *)
Theorem negative_amount_not_rejected :
  PrimFloat.leb (amountFlt negativeAmountFlags) 0 = true /\
  amountValidator (amountFlt negativeAmountFlags) =
    Some (ErrMustBeGreaterThanZero (amountFlt negativeAmountFlags)) /\
  transferF (happyWorld 10 ["alice"] true) negativeAmountFlags =
    (Return None, negativeAmountFlags,
     [EvGetNetwork; EvLoadSoft "keys/alice" (Ok ["alice"]);
      EvParseToID "bob"; EvPrint MsgBlank; EvPrint MsgGoingTo;
      EvFormat "alice";
      EvPrint (MsgSend (2 ^ 64 - 1000000000) "P-alice" "bob");
      EvPrint (MsgFee 20 "P-alice"); EvPrint MsgBlank;
      EvCaptureNoYes "Confirm transfer";
      EvChain SendSite OpMakeWallet false;
      EvPrint (MsgIssuing "ExportTx P -> X");
      EvChain SendSite
        (OpNewExportTx (2 ^ 64 - 1000000000 + 10) (ownersOf "bob")) false;
      EvChain SendSite OpSign false; EvChain SendSite OpIssueTx false]).
Proof. repeat split; vm_compute; reflexivity. Qed.

(** ** C4: the summary of a send of 1.5 to the P-Chain *)

Lemma shownBeforeConfirm_quiet l r :
  Forall isQuiet l -> shownBeforeConfirm (l ++ r) = shownBeforeConfirm r.
Proof.
  induction 1 as [ | e l Q _ IH]; simpl; [reflexivity | ].
  unfold isQuiet, quiet in Q.
  destruct (is_confirm e); [rewrite andb_false_r in Q; discriminate Q | ].
  unfold is_shown in Q. destruct (shown e).
  - rewrite andb_false_r in Q. discriminate Q.
  - exact IH.
Qed.

Lemma shownBeforeConfirm_none l :
  Forall (fun e => is_shown e = false) l -> shownBeforeConfirm l = [].
Proof.
  induction 1 as [ | e l Q _ IH]; simpl; [reflexivity | ].
  destruct (is_confirm e); [reflexivity | ].
  unfold is_shown in Q. destruct (shown e); [discriminate Q | exact IH].
Qed.

Lemma sendFlow_export w env f amt to b :
  In (EvChain SendSite (OpNewExportTx amt to) b) (events (sendFlow w env f)) ->
  amt = if PToX f then add64 (env_amount env) (env_fee env)
        else add64 (env_amount env) (mul64 (env_fee env) 3).
Proof.
  unfold sendFlow, chain, issueResult, bind, get, when, emit, print,
    lift, modify, ret, fail, events.
  destruct f as [? ? ? ? ? ? ? ? px ?]; simpl.
  destruct px; repeat (atomic_case; simpl).
  all: intros I; split_in I; try discriminate I.
  all: inversion I; reflexivity.
Qed.

(** C4, as stated, fails: in the scenario the total debit,
    1.5 * 10^9 + 4 * 10 = 1500000040, is not among the amounts displayed
    before the confirmation prompt. *)
Lemma total_debit_display_counterexample :
  ~ In (3 * units_Avax / 2 + 4 * 10)
      (shownBeforeConfirm
         (events (transferF (happyWorld 10 ["alice"] true) scenarioFlags))).
Proof. vm_compute. intros [H | [H | []]]; discriminate H. Qed.

(** C4, amended: a send of 1.5 to the P-Chain alone, with base fee 10 and
    a receiver other than the sender, converts the amount to 1.5 * 10^9
    and displays before the confirmation prompt exactly two amounts, the
    amount sent and the total fee 4 * 10; their sum is the total debit
    1.5 * 10^9 + 4 * 10. The export it builds carries the amount plus
    3 * 10. *)
Theorem scenario_summary (w : World) (f0 f1 : Flags) (env : Env)
    (t0 : list Event) (addr : ShortID) (rest : Keychain) (s : string) :
  gather w f0 = (Continue env, f1, t0) ->
  amountFlt f1 = 1.5%float ->
  env_fee env = 10 ->
  send f1 = true ->
  PToX f1 = false ->
  env_kc env = addr :: rest ->
  Format w "P" (GetHRP w (ID (env_network env))) addr = Ok s ->
  (addr =? env_receiverAddr env)%string = false ->
  env_amount env = 3 * units_Avax / 2 /\
  shownBeforeConfirm (events (transferF w f0)) = [3 * units_Avax / 2; 4 * 10] /\
  (forall amt to b,
      In (EvChain SendSite (OpNewExportTx amt to) b)
        (events (transferF w f0)) ->
      amt = 3 * units_Avax / 2 + 3 * 10).
Proof.
  intros G A F S X K Fm N.
  destruct (gather_inv _ _ _ _ _ G) as (Am & _ & _ & _ & _ & _ & _ & _ & Q).
  rewrite A, amountOf_one_and_a_half in Am.
  destruct (transferF_stages _ _ _ _ _ G) as (tc & te & E & Pc & Te).
  assert (Sm : events (printSummary w env f1) =
               [EvPrint MsgBlank; EvPrint MsgGoingTo; EvFormat addr;
                EvPrint (MsgSend 1500000000 s (receiverAddrStr f1));
                EvPrint (MsgFee 40 s); EvPrint MsgBlank]).
  { unfold printSummary, bind, print, emit, get, index0, lift, ret, fail,
      events.
    cbn [fst snd]. rewrite S, K. cbn [app]. rewrite Fm. cbn [app].
    rewrite N, X, Am, F. reflexivity. }
  assert (Ue : Forall isUnprompted te).
  { destruct Te as [-> | (f3 & _ & ->)]; [constructor | ].
    apply (execute_unprompted w env f3). }
  split; [exact Am | split].
  - rewrite E, Sm, (shownBeforeConfirm_quiet _ _ Q). simpl.
    rewrite shownBeforeConfirm_none; [reflexivity | ].
    apply Forall_app. split.
    + apply plain_not_shown, Pc.
    + apply unprompted_not_shown, Ue.
  - intros amt to b I. rewrite E, Sm in I. rewrite !in_app_iff in I.
    destruct I as [I | [I | [I | I]]].
    + exfalso.
      exact (no_chain_in _ _ (calm_no_chain _ (quiet_all_calm _ Q)) I eq_refl).
    + simpl in I. split_in I; discriminate I.
    + exfalso. exact (no_chain_in _ _ (plain_no_chain _ Pc) I eq_refl).
    + destruct Te as [-> | (f3 & (M1 & M2 & _) & ->)]; [destruct I | ].
      rewrite events_execute, M1, S in I.
      rewrite (sendFlow_export _ _ _ _ _ _ I), M2, X, Am, F.
      reflexivity.
Qed.

Lemma scenario_summary_witness :
  shownBeforeConfirm
    (events (transferF (happyWorld 10 ["alice"] true) scenarioFlags))
    = [1500000000; 40].
Proof.
  refine (proj1 (proj2 (scenario_summary (happyWorld 10 ["alice"] true)
            scenarioFlags scenarioFlags
            {| env_network := testNetwork; env_kc := ["alice"];
               env_receiverAddr := "bob";
               env_amount := 1500000000; env_fee := 10 |}
            _ "alice" [] "P-alice" _ _ _ _ _ _ _ _)));
    vm_compute; reflexivity.
Defined.

(** ** C10: the receiver of a receive *)

Lemma commutes_ret {A} (x : A) : commutes (ret x).
Proof. intros a f. reflexivity. Qed.

Lemma commutes_fail {A} (e : error) : commutes (@fail A e).
Proof. intros a f. reflexivity. Qed.

Lemma commutes_panic {A} : commutes (@panic A).
Proof. intros a f. reflexivity. Qed.

Lemma commutes_lift {A} (r : result A) : commutes (lift r).
Proof. destruct r; [apply commutes_ret | apply commutes_fail]. Qed.

Lemma commutes_emit (e : Event) : commutes (emit e).
Proof. intros a f. reflexivity. Qed.

Lemma commutes_modify (g : Flags -> Flags) :
  (forall a f, g (set_receiverAddrStr a f) = set_receiverAddrStr a (g f)) ->
  commutes (modify g).
Proof. intros H a f. unfold modify. rewrite H. reflexivity. Qed.

Lemma commutes_bind {A B} (m : M A) (k : A -> M B) :
  commutes m -> (forall x, commutes (k x)) -> commutes (bind m k).
Proof.
  intros Hm Hk a f. unfold bind at 1. rewrite Hm.
  destruct (m f) as [[o f1] t1] eqn:E. unfold outcome, final, events.
  simpl. destruct o as [x | e | ].
  - rewrite Hk. rewrite (bind_continue _ _ _ _ _ _ E). reflexivity.
  - rewrite (bind_return _ _ _ _ _ _ E). reflexivity.
  - rewrite (bind_panic _ _ _ _ _ E). reflexivity.
Qed.

Lemma commutes_get_bind {B} (k : Flags -> M B) :
  (forall a f, k (set_receiverAddrStr a f) = k f) ->
  (forall x, commutes (k x)) -> commutes (bind get k).
Proof.
  intros H Hk a f. unfold bind, get. rewrite H, Hk.
  destruct (k f f) as [[o f1] t1]. reflexivity.
Qed.

Lemma commutes_when (b : bool) (m : M unit) :
  commutes m -> commutes (when b m).
Proof. intros H. destruct b; [exact H | apply commutes_ret]. Qed.

Ltac commutes_step :=
  match goal with
  | |- forall _, _ => intros ?
  | |- commutes (bind get _) =>
      apply commutes_get_bind;
      [ let a := fresh in let f := fresh in
        intros a f; destruct f; reflexivity | ]
  | |- commutes (bind _ _) => apply commutes_bind
  | |- commutes (ret _) => apply commutes_ret
  | |- commutes (fail _) => apply commutes_fail
  | |- commutes panic => apply commutes_panic
  | |- commutes (lift _) => apply commutes_lift
  | |- commutes (emit _) => apply commutes_emit
  | |- commutes (when _ _) => apply commutes_when
  | |- commutes (modify _) =>
      apply commutes_modify;
      let a := fresh in let f := fresh in
      intros a f; destruct f; reflexivity
  | |- commutes (if ?b then _ else _) => destruct b
  | |- commutes (match ?r with Some _ => _ | None => _ end) => destruct r
  | |- commutes (let _ := _ in _) => cbv zeta
  end.

Lemma gatherInputs_commutes w : commutes (gatherInputs w).
Proof.
  unfold gatherInputs, checkFlags, resolveNetwork, selectStep,
    selectDestination, selectSigner, captureAmount, genesisFee, loadKeychain.
  repeat commutes_step.
Qed.

Lemma bind_assoc {A B C} (m : M A) (k : A -> M B) (h : B -> M C) f :
  bind (bind m k) h f = bind m (fun a => bind (k a) h) f.
Proof.
  unfold bind. destruct (m f) as [[o f1] t1]. destruct o as [a | e | ];
    try reflexivity.
  destruct (k a f1) as [[o2 f2] t2]. destruct o2 as [b | e | ];
    try reflexivity.
  destruct (h b f2) as [[o3 f3] t3]. rewrite app_assoc. reflexivity.
Qed.

Lemma transferF_afterInputs w f :
  transferF w f = bind (gatherInputs w) (afterInputs w) f.
Proof.
  unfold transferF, prepare, gather, afterInputs.
  rewrite bind_assoc. rewrite bind_assoc. reflexivity.
Qed.

Lemma agree_bind {A B} (m : M A) (k : A -> M B) f f' :
  agree (m f) (m f') -> agree (bind m k f) (bind m k f').
Proof.
  unfold agree, bind.
  destruct (m f) as [[o f1] t1]. destruct (m f') as [[o' f1'] t1'].
  unfold outcome, final, events. simpl. intros (O & T & F). subst o' t1'.
  destruct o as [x | e | ].
  - rewrite <- (F x eq_refl). destruct (k x f1) as [[o2 f2] t2]. simpl.
    auto.
  - simpl. repeat split. discriminate.
  - simpl. repeat split. discriminate.
Qed.

Lemma resolveReceiver_receive w n kc a f :
  send f = false ->
  agree (resolveReceiver w n kc (set_receiverAddrStr a f))
        (resolveReceiver w n kc f).
Proof.
  intros S. destruct f as [s ? ? ? ? ? ? ? ? ?]. simpl in S. subst s.
  unfold agree, resolveReceiver, bind, get, index0, emit, lift, modify, ret,
    fail, panic, outcome, final, events.
  simpl. destruct kc as [ | x rest]; simpl.
  - repeat split. discriminate.
  - destruct (Format w "P" (GetHRP w (ID n)) x); simpl; repeat split.
    discriminate.
Qed.

Lemma afterInputs_receive w i a f :
  send f = false ->
  agree (afterInputs w i (set_receiverAddrStr a f)) (afterInputs w i f).
Proof.
  intros S. unfold afterInputs. apply agree_bind. apply agree_bind.
  apply resolveReceiver_receive. exact S.
Qed.

Lemma Forall_bind {A B} (P : Event -> Prop) (m : M A) (k : A -> M B) f :
  Forall P (events (m f)) ->
  (forall a, keeps anyFlags P (k a)) ->
  Forall P (events (bind m k f)).
Proof.
  intros Hm Hk. unfold bind. destruct (m f) as [[o f1] t1].
  destruct o as [a | e | ]; try exact Hm.
  destruct (Hk a f1) as [_ H]. destruct (k a f1) as [[o2 f2] t2].
  apply Forall_app. split; [exact Hm | exact H].
Qed.

Lemma gatherInputs_notAsked w : keeps anyFlags notAsked (gatherInputs w).
Proof.
  unfold gatherInputs, checkFlags, resolveNetwork, selectStep,
    selectDestination, selectSigner, captureAmount, genesisFee, loadKeychain.
  keeps_auto.
Qed.

Lemma afterInputs_notAsked w i f :
  send f = false -> Forall notAsked (events (afterInputs w i f)).
Proof.
  intros S. unfold afterInputs. apply Forall_bind.
  - apply Forall_bind.
    + destruct f as [s ? ? ? ? ? ? ? ? ?]. simpl in S. subst s.
      unfold resolveReceiver, bind, get, index0, emit, lift, modify, ret,
        fail, panic, events.
      simpl. destruct (in_kc i) as [ | x rest]; simpl; [constructor | ].
      destruct (Format w "P" (GetHRP w (ID (in_network i))) x); simpl;
        repeat constructor.
    + intros r. keeps_auto.
  - intros env.
    unfold printSummary, confirm, execute, sendFlow, receiveFlow,
      receiveStep0, receiveStep1, receiveStep2, restartSame, restartStep,
      advance.
    keeps_auto.
Qed.

Lemma receiveFlow_owners w env f :
  Forall (ownedBy (env_receiverAddr env)) (events (receiveFlow w env f)).
Proof.
  receive_paths f.
  all: repeat (apply Forall_cons;
               [simpl; try exact I; intros to E;
                first [discriminate E | inversion E; reflexivity] | ]);
       apply Forall_nil.
Qed.

Lemma sendFlow_owners w env f :
  Forall (ownedBy (env_receiverAddr env)) (events (sendFlow w env f)).
Proof.
  unfold sendFlow, chain, issueResult, bind, get, when, emit, print,
    lift, modify, ret, fail, events.
  destruct f; simpl. repeat (atomic_case; simpl).
  all: repeat (apply Forall_cons;
               [simpl; try exact I; intros to E;
                first [discriminate E | inversion E; reflexivity] | ]);
       apply Forall_nil.
Qed.

(** C10: in an invocation that runs as a receive, once the inputs are
    gathered the receiver address is the first address of the keychain the
    key store or the ledger returned, and every operation built or issued
    names this address as its only owner; the target-address flag has no
    effect on the result or on the trace; and no event asks for, or
    parses, a target address. *)
Theorem receive_uses_own_address (w : World) (f0 : Flags) :
  receiveMode w f0 = true ->
  (forall env f1 t0,
      gather w f0 = (Continue env, f1, t0) ->
      send f1 = false /\
      nth_error (env_kc env) 0 = Some (env_receiverAddr env) /\
      (exists e, In e t0 /\ loadedKeychain e = Some (env_kc env)) /\
      forall site op b to,
        In (EvChain site op b) (events (transferF w f0)) ->
        ownersOfOp op = Some to ->
        to = ownersOf (env_receiverAddr env)) /\
  (forall a,
      outcome (transferF w (set_receiverAddrStr a f0))
        = outcome (transferF w f0) /\
      events (transferF w (set_receiverAddrStr a f0))
        = events (transferF w f0)) /\
  Forall notAsked (events (transferF w f0)).
Proof.
  intros R. split; [ | split].
  - intros env f1 t0 G.
    destruct (gather_inv _ _ _ _ _ G) as (_ & _ & _ & S & L & N & _ & _ & Q).
    specialize (S R). split; [exact S | split; [exact (N S) | split]].
    + exact L.
    + intros site op b to I O.
      destruct (transferF_stages _ _ _ _ _ G) as (tc & te & E & Pc & Te).
      pose proof (keeps_run _ _ _ _ _ _ _ (printSummary_calm w env)
                    (run_eta (printSummary w env f1))) as [_ Cs].
      rewrite E in I. rewrite !in_app_iff in I.
      destruct I as [I | [I | [I | I]]].
      * exfalso.
        exact (no_chain_in _ _ (calm_no_chain _ (quiet_all_calm _ Q)) I
                 eq_refl).
      * exfalso. exact (no_chain_in _ _ (calm_no_chain _ Cs) I eq_refl).
      * exfalso. exact (no_chain_in _ _ (plain_no_chain _ Pc) I eq_refl).
      * destruct Te as [-> | (f3 & _ & ->)]; [destruct I | ].
        rewrite events_execute in I.
        assert (W : ownedBy (env_receiverAddr env) (EvChain site op b)).
        { destruct (send f3).
          - pose proof (sendFlow_owners w env f3) as F.
            rewrite Forall_forall in F. exact (F _ I).
          - pose proof (receiveFlow_owners w env f3) as F.
            rewrite Forall_forall in F. exact (F _ I). }
        exact (W to O).
  - intros a. rewrite !transferF_afterInputs.
    pose proof (gatherInputs_commutes w a f0) as C.
    destruct (gatherInputs w f0) as [[o f1] t] eqn:G.
    unfold outcome, final, events in C. simpl in C.
    destruct o as [i | e | ].
    + destruct (gatherInputs_inv _ _ _ _ _ G) as (_ & _ & _ & S & _).
      destruct (afterInputs_receive w i a f1 (S R)) as (A1 & A2 & _).
      rewrite (bind_continue _ _ _ _ _ _ C), (bind_continue _ _ _ _ _ _ G).
      unfold outcome at 1 3, events at 1 3. simpl.
      rewrite A1, A2. split; reflexivity.
    + rewrite (bind_return _ _ _ _ _ _ C), (bind_return _ _ _ _ _ _ G).
      split; reflexivity.
    + rewrite (bind_panic _ _ _ _ _ C), (bind_panic _ _ _ _ _ G).
      split; reflexivity.
  - rewrite transferF_afterInputs.
    destruct (keeps_run _ _ _ _ _ _ _ (gatherInputs_notAsked w)
                (run_eta (gatherInputs w f0))) as [_ N].
    destruct (gatherInputs w f0) as [[o f1] t] eqn:G.
    unfold events in N. simpl in N.
    destruct o as [i | e | ].
    + destruct (gatherInputs_inv _ _ _ _ _ G) as (_ & _ & _ & S & _).
      rewrite (bind_continue _ _ _ _ _ _ G). unfold events at 1. simpl.
      apply Forall_app. split; [exact N | ].
      apply afterInputs_notAsked. exact (S R).
    + rewrite (bind_return _ _ _ _ _ _ G). exact N.
    + rewrite (bind_panic _ _ _ _ _ G). exact N.
Qed.

Lemma receive_uses_own_address_witness :
  events (transferF (happyWorld 10 ["alice"] true)
            (set_receiverAddrStr "mallory" (resumeFlags 0)))
  = events (transferF (happyWorld 10 ["alice"] true) (resumeFlags 0)).
Proof.
  destruct (receive_uses_own_address (happyWorld 10 ["alice"] true)
              (resumeFlags 0) eq_refl) as (_ & N & _).
  exact (proj2 (N "mallory")).
Defined.

(** * More of the code *)

(** ** [models.Network] *)

(** X1: [NetworkFromNetworkID] gives the undefined network exactly for the
    identifiers that are none of the three known ones; otherwise the
    network it gives carries the identifier asked for, no cluster name,
    and is never a devnet. Genesis parameters are missing exactly for the
    undefined kind. *)
Theorem NetworkFromNetworkID_known (c : NetConstants) (g : GenesisTable)
    (id : Z) :
  (Kind (NetworkFromNetworkID c id) = Undefined <->
   id <> MainnetID c /\ id <> TahoeID c /\ id <> LocalNetworkID c) /\
  (Kind (NetworkFromNetworkID c id) <> Undefined ->
   ID (NetworkFromNetworkID c id) = id /\
   ClusterName (NetworkFromNetworkID c id) = "" /\
   Kind (NetworkFromNetworkID c id) <> Devnet) /\
  (GenesisParams g (NetworkFromNetworkID c id) = None <->
   Kind (NetworkFromNetworkID c id) = Undefined).
Proof.
  unfold NetworkFromNetworkID, GenesisParams.
  destruct (Z.eqb_spec id (MainnetID c)) as [E1 | N1];
    [ | destruct (Z.eqb_spec id (TahoeID c)) as [E2 | N2];
        [ | destruct (Z.eqb_spec id (LocalNetworkID c)) as [E3 | N3]]];
    simpl.
  all: split; [split | split; [ | split]]; try discriminate;
    try tauto; try (intros _; repeat split; try discriminate; congruence).
  all: try (intros [? [? ?]]; congruence).
  all: intros H; exfalso; apply H; reflexivity.
Qed.

Lemma NetworkFromNetworkID_known_witness :
  ID (NetworkFromNetworkID testConstants 1337) = 1337 /\
  Kind (NetworkFromNetworkID testConstants 7) = Undefined.
Proof.
  pose proof (NetworkFromNetworkID_known testConstants
                {| LocalParams := {| TxFee := 10 |};
                   TahoeParams := {| TxFee := 10 |};
                   MainnetParams := {| TxFee := 10 |} |} 1337)
    as (_ & K & _).
  pose proof (NetworkFromNetworkID_known testConstants
                {| LocalParams := {| TxFee := 10 |};
                   TahoeParams := {| TxFee := 10 |};
                   MainnetParams := {| TxFee := 10 |} |} 7)
    as (U & _ & _).
  split.
  - apply K. vm_compute. discriminate.
  - apply U. vm_compute. repeat split; discriminate.
Defined.





Lemma dropPrefix_append p s : dropPrefix p (String.append p s) = Some s.
Proof.
  induction p as [ | a p IH]; simpl; [reflexivity | ].
  rewrite Ascii.eqb_refl. exact IH.
Qed.

(** X4: the websocket endpoint drops the scheme of the API endpoint: for
    "https://host" it is built on "host", and so it is for "http://host"
    when the host does not itself start with "https://"; an endpoint with
    neither scheme is used whole. The RPC endpoint keeps the endpoint as
    it is. *)
Theorem BlockchainWSEndpoint_scheme (n : Network) (host blockchainID : string) :
  let ws h := String.append "ws://"
                (String.append h
                   (String.append "/ext/bc/"
                      (String.append blockchainID "/ws"))) in
  (Endpoint n = String.append "https://" host ->
   BlockchainWSEndpoint n blockchainID = ws host) /\
  (Endpoint n = String.append "http://" host ->
   dropPrefix "https://" host = None ->
   BlockchainWSEndpoint n blockchainID = ws host) /\
  (dropPrefix "http://" (Endpoint n) = None ->
   dropPrefix "https://" (Endpoint n) = None ->
   BlockchainWSEndpoint n blockchainID = ws (Endpoint n)) /\
  dropPrefix (Endpoint n) (BlockchainEndpoint n blockchainID)
    = Some (String.append "/ext/bc/" (String.append blockchainID "/rpc")).
Proof.
  unfold BlockchainWSEndpoint, BlockchainEndpoint, TrimPrefix.
  cbv zeta. repeat split.
  - intros ->. reflexivity.
  - intros -> H. rewrite (dropPrefix_append "http://" host), H. reflexivity.
  - intros H1 H2. rewrite H1, H2. reflexivity.
  - apply dropPrefix_append.
Qed.

Lemma BlockchainWSEndpoint_scheme_witness :
  BlockchainWSEndpoint (NewLocalNetwork testConstants) "C"
    = "ws://127.0.0.1:9650/ext/bc/C/ws" /\
  BlockchainWSEndpoint (NewMainnetNetwork testConstants) "C"
    = "ws://api.example.network/ext/bc/C/ws".
Proof.
  pose proof (BlockchainWSEndpoint_scheme (NewLocalNetwork testConstants)
                "127.0.0.1:9650" "C") as (_ & H & _).
  pose proof (BlockchainWSEndpoint_scheme (NewMainnetNetwork testConstants)
                "api.example.network" "C") as (S & _).
  split.
  - apply H; reflexivity.
  - apply S. reflexivity.
Defined.

Lemma sprintf_d_inj a b : 0 <= a -> 0 <= b -> sprintf_d a = sprintf_d b -> a = b.
Proof.
  unfold sprintf_d. intros A B E.
  assert (U : N.to_uint (Z.to_N a) = N.to_uint (Z.to_N b)).
  { assert (I : forall d, NilZero.uint_of_string (NilZero.string_of_uint
                             (N.to_uint d)) = Some (N.to_uint d)).
    { intros d. apply NilZero.usu. destruct d as [ | p]; simpl.
      - discriminate.
      - apply DecimalPos.Unsigned.to_uint_nonnil. }
    pose proof (I (Z.to_N a)) as Ia. pose proof (I (Z.to_N b)) as Ib.
    rewrite E in Ia. rewrite Ia in Ib. inversion Ib. reflexivity. }
  apply DecimalN.Unsigned.to_uint_inj in U.
  apply (f_equal Z.of_N) in U. rewrite !Z2N.id in U; assumption.
Qed.

(** X5: the flag value of a local or devnet network is "network-" followed
    by its identifier in decimal; two such networks with the same flag
    value have the same identifier, and no such network has the flag value
    of a network of another kind. *)
Theorem NetworkIDFlagValue_separates (n n' : Network) :
  (Kind n = Local \/ Kind n = Devnet) ->
  dropPrefix "network-" (NetworkIDFlagValue n) = Some (sprintf_d (ID n)) /\
  ((Kind n' = Local \/ Kind n' = Devnet) ->
   0 <= ID n -> 0 <= ID n' ->
   NetworkIDFlagValue n = NetworkIDFlagValue n' -> ID n = ID n') /\
  (~ (Kind n' = Local \/ Kind n' = Devnet) ->
   NetworkIDFlagValue n <> NetworkIDFlagValue n').
Proof.
  intros K.
  assert (V : NetworkIDFlagValue n
              = String.append "network-" (sprintf_d (ID n))).
  { unfold NetworkIDFlagValue. destruct K as [-> | ->]; reflexivity. }
  rewrite V. split; [apply dropPrefix_append | split].
  - intros K' A B E.
    assert (V' : NetworkIDFlagValue n'
                 = String.append "network-" (sprintf_d (ID n'))).
    { unfold NetworkIDFlagValue. destruct K' as [-> | ->]; reflexivity. }
    rewrite V' in E. simpl in E. inversion E as [E'].
    exact (sprintf_d_inj _ _ A B E').
  - intros N E. unfold NetworkIDFlagValue in E.
    destruct (Kind n') eqn:K'; simpl in E; try discriminate E.
    + apply N. left. reflexivity.
    + apply N. right. reflexivity.
Qed.

Lemma NetworkIDFlagValue_separates_witness :
  NetworkIDFlagValue (NewLocalNetwork testConstants) = "network-1337" /\
  NetworkIDFlagValue (NewLocalNetwork testConstants)
    <> NetworkIDFlagValue (NewTahoeNetwork testConstants).
Proof.
  pose proof (NetworkIDFlagValue_separates (NewLocalNetwork testConstants)
                (NewTahoeNetwork testConstants) (or_introl eq_refl))
    as (_ & _ & D).
  split.
  - reflexivity.
  - apply D. intros [X | X]; discriminate X.
Defined.

(** X6: with the simulation variable set, any network is turned into the
    local one: local kind, identifier and endpoint, hence the local
    genesis parameters; its cluster name is kept, so a clustered network
    keeps its name; doing it twice changes nothing more. With the variable
    empty the network is left as it is. *)
Theorem HandlePublicNetworkSimulation_local (c : NetConstants)
    (g : GenesisTable) (env : string) (n : Network) :
  (env <> "" ->
   GenesisParams g (HandlePublicNetworkSimulation c env n)
     = Some (LocalParams g) /\
   ID (HandlePublicNetworkSimulation c env n) = LocalNetworkID c /\
   Endpoint (HandlePublicNetworkSimulation c env n) = LocalAPIEndpoint c /\
   (ClusterName n <> "" ->
    Name (HandlePublicNetworkSimulation c env n) = Name n) /\
   HandlePublicNetworkSimulation c env
     (HandlePublicNetworkSimulation c env n)
     = HandlePublicNetworkSimulation c env n) /\
  (env = "" -> HandlePublicNetworkSimulation c env n = n).
Proof.
  unfold HandlePublicNetworkSimulation. split.
  - intros E. apply String.eqb_neq in E. rewrite E. simpl.
    repeat split. intros N. unfold Name. simpl.
    apply String.eqb_neq in N. rewrite N. reflexivity.
  - intros ->. reflexivity.
Qed.

Lemma HandlePublicNetworkSimulation_local_witness :
  Kind (HandlePublicNetworkSimulation testConstants "true"
          (NewMainnetNetwork testConstants)) = Local /\
  ID (HandlePublicNetworkSimulation testConstants "true"
        (NewMainnetNetwork testConstants)) = 1337.
Proof.
  pose proof (HandlePublicNetworkSimulation_local testConstants
                {| LocalParams := {| TxFee := 10 |};
                   TahoeParams := {| TxFee := 10 |};
                   MainnetParams := {| TxFee := 10 |} |}
                "true" (NewMainnetNetwork testConstants)) as (S & _).
  destruct (S ltac:(discriminate)) as (_ & I & _).
  split; [reflexivity | exact I].
Defined.

(** ** [transferF] with every input on the command line *)

(** Case analysis that remembers what it has already decided. *)
Ltac all_paths :=
  repeat (simpl;
          first [ match goal with
                  | K : ?x = _ |- context [match ?x with _ => _ end] =>
                      rewrite K
                  end
                | atomic_case ]);
  simpl.

(** With complete and valid flags the gathering of the inputs is the
    network, the fee and the keychain, and writes no flag. *)
Lemma gatherInputs_given w f :
  fullySpecified f = true -> validFlags f = true ->
  gatherInputs w f =
  bind (resolveNetwork w)
    (fun network =>
       bind (genesisFee w network)
         (fun fee =>
            bind (loadKeychain w network)
              (fun kc =>
                 ret {| in_network := network;
                        in_amount := amountOf w (amountFlt f);
                        in_fee := fee; in_kc := kc |}))) f.
Proof.
  unfold fullySpecified, validFlags, gatherInputs, checkFlags, resolveNetwork,
    selectStep, selectDestination, selectSigner, captureAmount, genesisFee,
    loadKeychain, bind, get, when, emit, lift, modify, ret, fail, panic.
  destruct f as [s r kn li fo ra am c px pp]. simpl.
  destruct s, r, pp, px; simpl; try discriminate; all_paths;
    intros; try discriminate; reflexivity.
Qed.

Lemma gatherInputs_given_run w f :
  fullySpecified f = true -> validFlags f = true ->
  final (gatherInputs w f) = f /\
  Forall unasked (events (gatherInputs w f)).
Proof.
  intros S V. rewrite (gatherInputs_given w f S V).
  unfold resolveNetwork, genesisFee, loadKeychain, bind, get, emit, lift,
    ret, fail, panic, final, events.
  all_paths; split; try reflexivity; repeat constructor.
Qed.

Lemma transferF_invalid w f :
  validFlags f = false ->
  exists e, transferF w f = (Return (Some e), f, []).
Proof.
  intros V. unfold validFlags in V.
  assert (C : exists e, checkFlags f = (Return (Some e), f, [])).
  { unfold checkFlags, bind, get, fail, ret.
    destruct (send f && receive f); [eexists; reflexivity | ].
    simpl in V. apply negb_false_iff in V. rewrite V.
    eexists; reflexivity. }
  destruct C as [e C]. exists e.
  unfold transferF, prepare, gather, gatherInputs.
  do 4 apply bind_return. exact C.
Qed.

Lemma afterInputs_unasked w i f :
  negb (send f) || negb (receiverAddrStr f =? "")%string = true ->
  Forall unasked (events (afterInputs w i f)).
Proof.
  intros S. unfold afterInputs. apply Forall_bind.
  - apply Forall_bind.
    + destruct f as [s ? ? ? ? ra ? ? ? ?]. simpl in S.
      unfold resolveReceiver, bind, get, when, index0, emit, lift, modify,
        ret, fail, panic, events.
      simpl. destruct s; simpl in *.
      * rewrite negb_true_iff in S. rewrite S. simpl.
        destruct (ParseToID w ra); repeat constructor.
      * destruct (in_kc i) as [ | x rest]; simpl; [constructor | ].
        destruct (Format w "P" (GetHRP w (ID (in_network i))) x); simpl;
          repeat constructor.
    + intros r. keeps_auto.
  - intros env.
    unfold printSummary, confirm, execute, sendFlow, receiveFlow,
      receiveStep0, receiveStep1, receiveStep2, restartSame, restartStep,
      advance.
    keeps_auto.
Qed.

(** X7: when the command line gives every input (a step, a destination,
    a key name or a ledger index, a non-zero amount and, for a send, a
    target address), no prompt is shown but the confirmation; with
    [--force] there is no prompt at all. *)
Theorem no_prompt_when_given (w : World) (f : Flags) :
  fullySpecified f = true ->
  Forall unasked (events (transferF w f)) /\
  (force f = true ->
   Forall (fun e => is_confirm e = false) (events (transferF w f))).
Proof.
  intros S. split.
  - destruct (validFlags f) eqn:V.
    + destruct (gatherInputs_given_run w f S V) as [F U].
      rewrite transferF_afterInputs.
      destruct (gatherInputs w f) as [[o f1] t] eqn:G.
      unfold final, events in F, U. simpl in F, U. subst f1.
      destruct o as [i | e | ].
      * rewrite (bind_continue _ _ _ _ _ _ G). unfold events at 1. simpl.
        apply Forall_app. split; [exact U | ].
        apply afterInputs_unasked.
        unfold fullySpecified in S. apply andb_prop in S. apply S.
      * rewrite (bind_return _ _ _ _ _ _ G). exact U.
      * rewrite (bind_panic _ _ _ _ _ G). exact U.
    + destruct (transferF_invalid w f V) as [e E]. rewrite E. constructor.
  - intros F.
    destruct (transferF_shape w f)
      as (tg & ts & tc & te & E & Qg & Qs & Qe & Ft & _).
    rewrite E, (Ft F). simpl. repeat (apply Forall_app; split).
    + apply calm_no_confirm, quiet_all_calm, Qg.
    + apply calm_no_confirm, Qs.
    + apply unprompted_no_confirm, Qe.
Qed.

Lemma no_prompt_when_given_witness :
  Forall unasked
    (events (transferF (happyWorld 10 ["alice"] true) scenarioFlags)).
Proof.
  exact (proj1 (no_prompt_when_given (happyWorld 10 ["alice"] true)
                  scenarioFlags eq_refl)).
Defined.

(** ** The send branch *)

Lemma receiveFlow_no_send_site w env f op b :
  ~ In (EvChain SendSite op b) (events (receiveFlow w env f)).
Proof.
  intros I. pose proof (receiveFlow_sites w env f) as F.
  rewrite Forall_forall in F. exact (F _ I).
Qed.

(** A wallet operation of an invocation whose inputs are gathered belongs
    to the execution, which runs under flags of the same mode. *)
Lemma chain_event_in_execution w f0 env f1 t0 site op b :
  gather w f0 = (Continue env, f1, t0) ->
  In (EvChain site op b) (events (transferF w f0)) ->
  exists f3, sameMode f1 f3 /\
             In (EvChain site op b) (events (execute w env f3)).
Proof.
  intros G I.
  destruct (gather_inv _ _ _ _ _ G) as (_ & _ & _ & _ & _ & _ & _ & _ & Q).
  destruct (transferF_stages _ _ _ _ _ G) as (tc & te & E & Pc & Te).
  pose proof (keeps_run _ _ _ _ _ _ _ (printSummary_calm w env)
                (run_eta (printSummary w env f1))) as [_ Cs].
  rewrite E in I. rewrite !in_app_iff in I.
  destruct I as [I | [I | [I | I]]].
  - exfalso.
    exact (no_chain_in _ _ (calm_no_chain _ (quiet_all_calm _ Q)) I eq_refl).
  - exfalso. exact (no_chain_in _ _ (calm_no_chain _ Cs) I eq_refl).
  - exfalso. exact (no_chain_in _ _ (plain_no_chain _ Pc) I eq_refl).
  - destruct Te as [-> | (f3 & M & ->)]; [destruct I | ].
    exists f3. split; assumption.
Qed.

(** X8: in an invocation whose inputs are gathered, with the amount plus
    four fees within [uint64], every export a send builds is made out to
    the receiver alone and carries the amount plus one fee when the
    X-Chain flag is set, plus three fees otherwise; the total fee the
    summary announces is what the export adds to the amount, plus one fee
    more (that of the export itself). *)
Theorem send_fee_accounts (w : World) (f0 f1 : Flags) (env : Env)
    (t0 : list Event) :
  gather w f0 = (Continue env, f1, t0) ->
  0 <= env_fee env ->
  env_amount env + 4 * env_fee env < 2 ^ 64 ->
  (forall amt to b,
      In (EvChain SendSite (OpNewExportTx amt to) b)
        (events (transferF w f0)) ->
      send f1 = true /\
      to = ownersOf (env_receiverAddr env) /\
      amt = env_amount env + (if PToX f1 then 1 else 3) * env_fee env) /\
  (forall amt to b t a,
      In (EvChain SendSite (OpNewExportTx amt to) b)
        (events (transferF w f0)) ->
      In (EvPrint (MsgFee t a)) (events (transferF w f0)) ->
      t = (amt - env_amount env) + env_fee env).
Proof.
  intros G F0 B.
  destruct (gather_inv _ _ _ _ _ G) as (A & _ & _ & _ & _ & _ & _ & _ & Q).
  pose proof (amountOf_range w (amountFlt f1)) as R. rewrite <- A in R.
  assert (X : forall amt to b,
             In (EvChain SendSite (OpNewExportTx amt to) b)
               (events (transferF w f0)) ->
             send f1 = true /\
             to = ownersOf (env_receiverAddr env) /\
             amt = env_amount env + (if PToX f1 then 1 else 3) * env_fee env).
  { intros amt to b I.
    destruct (chain_event_in_execution _ _ _ _ _ _ _ _ G I)
      as (f3 & (M1 & M2 & _) & I3).
    rewrite events_execute in I3. destruct (send f3) eqn:S3.
    - split; [congruence | split].
      + pose proof (sendFlow_owners w env f3) as O.
        rewrite Forall_forall in O. exact (O _ I3 to eq_refl).
      + rewrite (sendFlow_export _ _ _ _ _ _ I3), M2.
        unfold add64, mul64. destruct (PToX f1).
        * rewrite wrap64_small; lia.
        * rewrite (wrap64_small (env_fee env * 3)) by lia.
          rewrite wrap64_small; lia.
    - exfalso. exact (receiveFlow_no_send_site _ _ _ _ _ I3). }
  split; [exact X | ].
  intros amt to b t a I J.
  destruct (X amt to b I) as (_ & _ & ->).
  destruct (transferF_stages _ _ _ _ _ G) as (tc & te & E & Pc & Te).
  assert (Ue : Forall isUnprompted te).
  { destruct Te as [-> | (f3 & _ & ->)]; [constructor | ].
    apply (execute_unprompted w env f3). }
  rewrite E in J. rewrite !in_app_iff in J.
  destruct J as [J | [J | [J | J]]].
  - exfalso. exact (not_shown_in _ _ _ (quiet_not_shown _ Q) J).
  - destruct (printSummary_fee _ _ _ _ _ J) as [_ T]. rewrite T.
    unfold mul64. destruct (PToX f1); rewrite wrap64_small; lia.
  - exfalso. exact (not_shown_in _ _ _ (plain_not_shown _ Pc) J).
  - exfalso. exact (not_shown_in _ _ _ (unprompted_not_shown _ Ue) J).
Qed.

Lemma send_fee_accounts_witness :
  send scenarioFlags = true /\
  ownersOf "bob" = ownersOf "bob" /\
  1500000030 = 1500000000 + (if PToX scenarioFlags then 1 else 3) * 10.
Proof.
  pose proof (send_fee_accounts (happyWorld 10 ["alice"] true)
                scenarioFlags scenarioFlags
                {| env_network := testNetwork; env_kc := ["alice"];
                   env_receiverAddr := "bob";
                   env_amount := 1500000000; env_fee := 10 |}
                _ ltac:(vm_compute; reflexivity)
                ltac:(vm_compute; discriminate) ltac:(reflexivity))
    as (X & _).
  apply (X 1500000030 (ownersOf "bob") false).
  vm_compute. tauto.
Defined.

Lemma sendFlow_failure w env f op :
  In (EvChain SendSite op true) (events (sendFlow w env f)) ->
  exists e,
    outcome (sendFlow w env f) = Return (Some e) /\
    sendErrorOf op e /\
    final (sendFlow w env f) = f /\
    skipn (List.length (events (sendFlow w env f)) - 1)
      (events (sendFlow w env f)) = [EvChain SendSite op true] /\
    forallb (fun x => negb (chainFailed x) && negb (isRestart x))
      (firstn (List.length (events (sendFlow w env f)) - 1)
         (events (sendFlow w env f))) = true.
Proof.
  unfold sendFlow, chain, issueResult, bind, get, when, emit, print,
    lift, modify, ret, fail, events, outcome, final.
  destruct f; simpl. repeat (atomic_case; simpl).
  all: intros I; split_in I; try discriminate I.
  all: inversion I; subst; clear I.
  all: eexists; repeat split; simpl; eauto.
Qed.

Lemma sendFlow_success w env f :
  outcome (sendFlow w env f) = Continue tt ->
  final (sendFlow w env f) = f /\
  filter is_chain (events (sendFlow w env f)) =
    [EvChain SendSite OpMakeWallet false;
     EvChain SendSite
       (OpNewExportTx
          (if PToX f then add64 (env_amount env) (env_fee env)
           else add64 (env_amount env) (mul64 (env_fee env) 3))
          (ownersOf (env_receiverAddr env))) false;
     EvChain SendSite OpSign false;
     EvChain SendSite OpIssueTx false].
Proof.
  unfold sendFlow, chain, issueResult, bind, get, when, emit, print,
    lift, modify, ret, fail, events, outcome, final.
  destruct f as [? ? ? ? ? ? ? ? px ?]; simpl.
  destruct px; repeat (atomic_case; simpl).
  all: intros O; try discriminate O; split; reflexivity.
Qed.

(** X9: in a send whose preparation went through, a wallet operation that
    fails is the last event of the trace: nothing is tried after it and,
    unlike a receive, no resume instruction is printed; the invocation
    returns the error, wrapped as a build, sign or issue error (a timeout
    told apart) according to the operation, and the cursor is left as it
    was. *)
Theorem send_failure_stops (w : World) (f0 f1 : Flags) (env : Env)
    (t0 : list Event) (op : ChainOp) :
  prepare w f0 = (Continue env, f1, t0) ->
  send f1 = true ->
  In (EvChain SendSite op true) (events (transferF w f0)) ->
  exists e pre,
    outcome (transferF w f0) = Return (Some e) /\
    sendErrorOf op e /\
    events (transferF w f0) = t0 ++ pre ++ [EvChain SendSite op true] /\
    Forall (fun x => chainFailed x = false /\ isRestart x = false) pre /\
    receiveRecoveryStep (final (transferF w f0)) = receiveRecoveryStep f0.
Proof.
  intros P S I.
  destruct (keeps_run _ _ _ _ _ _ _ (prepare_no_chain w) P) as [[C _] N].
  rewrite (transferF_run _ _ _ _ _ P) in *.
  rewrite (execute_send _ _ _ S) in *.
  unfold events at 1 in I. simpl in I. apply in_app_or in I.
  destruct I as [I | I].
  { exfalso. rewrite Forall_forall in N. specialize (N _ I). discriminate N. }
  assert (I' : In (EvChain SendSite op true) (events (sendFlow w env f1))).
  { destruct (sendFlow w env f1) as [[o f2] tr]. destruct o; exact I. }
  clear I.
  destruct (sendFlow_failure _ _ _ _ I') as (e & O & W & F & L & B).
  pose proof (firstn_skipn (List.length (events (sendFlow w env f1)) - 1)
                (events (sendFlow w env f1))) as Split.
  rewrite L in Split.
  set (pre := firstn (List.length (events (sendFlow w env f1)) - 1)
                (events (sendFlow w env f1))) in *.
  exists e, pre.
  destruct (sendFlow w env f1) as [[o f2] tr] eqn:E.
  unfold outcome, final, events in *. simpl in *. subst o f2. simpl.
  repeat split.
  - exact W.
  - rewrite <- Split. reflexivity.
  - rewrite forallb_forall in B. rewrite Forall_forall. intros x X.
    specialize (B x X). apply andb_prop in B. destruct B as [B1 B2].
    rewrite negb_true_iff in B1, B2. split; assumption.
  - exact C.
Qed.

Lemma send_failure_stops_witness :
  exists e pre,
    outcome (transferF signFailsWorld scenarioFlags) = Return (Some e) /\
    sendErrorOf OpSign e /\
    events (transferF signFailsWorld scenarioFlags) =
      events (prepare signFailsWorld scenarioFlags) ++ pre ++
      [EvChain SendSite OpSign true].
Proof.
  destruct (send_failure_stops signFailsWorld scenarioFlags
              (final (prepare signFailsWorld scenarioFlags))
              {| env_network := testNetwork; env_kc := ["alice"];
                 env_receiverAddr := "bob";
                 env_amount := 1500000000; env_fee := 10 |}
              (events (prepare signFailsWorld scenarioFlags)) OpSign)
    as (e & pre & A & B & C & _).
  - vm_compute. reflexivity.
  - vm_compute. reflexivity.
  - vm_compute. tauto.
  - exists e, pre. repeat split; assumption.
Defined.

(** X10: a send whose preparation went through returns nil only when the
    wallet was made and the export built, signed and issued, each once and
    in this order; it leaves every flag as the preparation left it. *)
Theorem send_success_complete (w : World) (f0 f1 : Flags) (env : Env)
    (t0 : list Event) :
  prepare w f0 = (Continue env, f1, t0) ->
  send f1 = true ->
  outcome (transferF w f0) = Return None ->
  final (transferF w f0) = f1 /\
  filter is_chain (events (transferF w f0)) =
    [EvChain SendSite OpMakeWallet false;
     EvChain SendSite
       (OpNewExportTx
          (if PToX f1 then add64 (env_amount env) (env_fee env)
           else add64 (env_amount env) (mul64 (env_fee env) 3))
          (ownersOf (env_receiverAddr env))) false;
     EvChain SendSite OpSign false;
     EvChain SendSite OpIssueTx false].
Proof.
  intros P S O.
  destruct (keeps_run _ _ _ _ _ _ _ (prepare_no_chain w) P) as [_ N].
  rewrite (transferF_run _ _ _ _ _ P) in *.
  rewrite (execute_send _ _ _ S) in *.
  pose proof (sendFlow_success w env f1) as X.
  destruct (sendFlow w env f1) as [[o f2] tr] eqn:E.
  unfold outcome, final, events in *. simpl in *.
  destruct o as [[] | e | ]; simpl in *; try discriminate O.
  - destruct (X eq_refl) as [X1 X2]. split; [exact X1 | ].
    rewrite filter_app, (filter_none _ _ N). exact X2.
  - exfalso.
    inversion O; subst e.
    assert (Nn : outcome (sendFlow w env f1) <> Return None).
    { unfold sendFlow, chain, issueResult, bind, get, when, emit, print,
        lift, modify, ret, fail, outcome.
      destruct f1; simpl. repeat (atomic_case; simpl); discriminate. }
    apply Nn. rewrite E. reflexivity.
Qed.

Lemma send_success_complete_witness :
  List.length
    (filter is_chain
       (events (transferF (happyWorld 10 ["alice"] true) scenarioFlags)))
  = 4%nat.
Proof.
  pose proof (send_success_complete (happyWorld 10 ["alice"] true)
                scenarioFlags
                (final (prepare (happyWorld 10 ["alice"] true) scenarioFlags))
                {| env_network := testNetwork; env_kc := ["alice"];
                   env_receiverAddr := "bob";
                   env_amount := 1500000000; env_fee := 10 |}
                (events (prepare (happyWorld 10 ["alice"] true)
                           scenarioFlags))
                ltac:(vm_compute; reflexivity) ltac:(vm_compute; reflexivity)
                ltac:(vm_compute; reflexivity)) as [_ X].
  rewrite X. reflexivity.
Defined.

(** ** The receive branch *)

Lemma receiveFlow_success w env f :
  (forall e, outcome (receiveFlow w env f) <> Return (Some e)) ->
  outcome (receiveFlow w env f) <> Panic /\
  filter is_chain (events (receiveFlow w env f)) = receivePlan f env /\
  receiveRecoveryStep (final (receiveFlow w env f)) =
    last (receiveBlocks f) (receiveRecoveryStep f).
Proof.
  unfold receivePlan, receiveBlocks, receiveOps, usingLedger.
  receive_paths f.
  all: intros O;
    try (exfalso; eapply O; reflexivity);
    repeat split; try reflexivity; try discriminate.
Qed.

Lemma receiveFlow_idle w env f :
  receiveRecoveryStep f <> 0 -> receiveRecoveryStep f <> 1 ->
  receiveRecoveryStep f <> 2 ->
  receiveFlow w env f = (Continue tt, f, []).
Proof.
  intros N0 N1 N2. unfold receiveFlow, bind, get, when, ret. simpl.
  rewrite (proj2 (Z.eqb_neq _ _) N0). simpl.
  rewrite (proj2 (Z.eqb_neq _ _) N1). simpl.
  rewrite (proj2 (Z.eqb_neq _ _) N2). simpl.
  reflexivity.
Qed.

Lemma receiveFlow_cursor w env f :
  receiveRecoveryStep f <= receiveRecoveryStep (final (receiveFlow w env f))
    <= Z.max (receiveRecoveryStep f) 2 /\
  (PToX f = true ->
   receiveRecoveryStep f = 0 ->
   receiveRecoveryStep (final (receiveFlow w env f)) = 0).
Proof.
  receive_paths f.
  all: split;
    [ first [lia | vm_compute; split; discriminate]
    | intros; first [reflexivity | congruence | lia] ].
Qed.

(** X11: a receive that returns nil after its preparation made exactly the
    wallet operations of the blocks its cursor selects, each succeeding and
    in order: the import on the X-Chain alone when the destination is the
    X-Chain and the cursor 0, the three blocks when the destination is the
    P-Chain, the last two blocks from cursor 1 (whatever the destination),
    the last one from cursor 2, none from any other cursor; the cursor ends
    on the last block made. *)
Theorem receive_success_complete (w : World) (f0 f1 : Flags) (env : Env)
    (t0 : list Event) :
  prepare w f0 = (Continue env, f1, t0) ->
  send f1 = false ->
  outcome (transferF w f0) = Return None ->
  filter is_chain (events (transferF w f0)) = receivePlan f1 env /\
  receiveRecoveryStep (final (transferF w f0)) =
    last (receiveBlocks f1) (receiveRecoveryStep f0).
Proof.
  intros P S O.
  destruct (keeps_run _ _ _ _ _ _ _ (prepare_no_chain w) P) as [[C _] N].
  rewrite (transferF_run _ _ _ _ _ P) in *.
  rewrite (execute_receive _ _ _ S) in *.
  pose proof (receiveFlow_success w env f1) as X.
  destruct (receiveFlow w env f1) as [[o f2] tr] eqn:E.
  unfold outcome, final, events in *. simpl in *.
  assert (Ok' : forall e, o <> Return (Some e)).
  { intros e Oe. subst o. simpl in O. discriminate O. }
  destruct (X Ok') as (_ & X1 & X2).
  rewrite <- C.
  destruct o as [[] | e | ]; simpl in *;
    (split; [rewrite filter_app, (filter_none _ _ N); exact X1 | exact X2]).
Qed.

Lemma receive_success_complete_witness :
  map siteOf
    (filter is_chain
       (events (transferF (happyWorld 10 ["alice"] true) (resumeFlags 1))))
  = [Some (RecvSite 1); Some (RecvSite 1);
     Some (RecvSite 2); Some (RecvSite 2)] /\
  receiveRecoveryStep
    (final (transferF (happyWorld 10 ["alice"] true) (resumeFlags 1))) = 2.
Proof.
  destruct (receive_success_complete (happyWorld 10 ["alice"] true)
              (resumeFlags 1)
              (final (prepare (happyWorld 10 ["alice"] true) (resumeFlags 1)))
              {| env_network := testNetwork; env_kc := ["alice"];
                 env_receiverAddr := "alice";
                 env_amount := 1000000000; env_fee := 10 |}
              (events (prepare (happyWorld 10 ["alice"] true)
                         (resumeFlags 1)))
              ltac:(vm_compute; reflexivity) ltac:(vm_compute; reflexivity)
              ltac:(vm_compute; reflexivity)) as [X1 X2].
  rewrite X1, X2. split; reflexivity.
Defined.

(** X12: a receive whose cursor is none of 0, 1 and 2 makes no wallet
    operation at all: once the summary is confirmed the invocation returns
    nil, with no event after the preparation's and the flags as the
    preparation left them. *)
Theorem receive_cursor_out_of_range (w : World) (f0 f1 : Flags) (env : Env)
    (t0 : list Event) :
  prepare w f0 = (Continue env, f1, t0) ->
  send f1 = false ->
  2 < receiveRecoveryStep f0 ->
  transferF w f0 = (Return None, f1, t0).
Proof.
  intros P S C.
  destruct (keeps_run _ _ _ _ _ _ _ (prepare_no_chain w) P) as [[C1 _] _].
  rewrite (transferF_run _ _ _ _ _ P).
  rewrite (execute_receive _ _ _ S).
  rewrite receiveFlow_idle by lia.
  unfold outcome, final, events. simpl. rewrite app_nil_r. reflexivity.
Qed.

Lemma receive_cursor_out_of_range_witness :
  outcome (transferF (happyWorld 10 ["alice"] true) (resumeFlags 3))
    = Return None /\
  filter is_chain
    (events (transferF (happyWorld 10 ["alice"] true) (resumeFlags 3))) = [].
Proof.
  rewrite (receive_cursor_out_of_range (happyWorld 10 ["alice"] true)
             (resumeFlags 3)
             (final (prepare (happyWorld 10 ["alice"] true) (resumeFlags 3)))
             {| env_network := testNetwork; env_kc := ["alice"];
                env_receiverAddr := "alice";
                env_amount := 1000000000; env_fee := 10 |}
             (events (prepare (happyWorld 10 ["alice"] true)
                        (resumeFlags 3)))
             ltac:(vm_compute; reflexivity) ltac:(vm_compute; reflexivity)
             ltac:(vm_compute; reflexivity)).
  split; vm_compute; reflexivity.
Defined.

Lemma sendFlow_final w env f : final (sendFlow w env f) = f.
Proof.
  unfold sendFlow, chain, issueResult, bind, get, when, emit, print,
    lift, modify, ret, fail, final.
  destruct f; simpl. repeat (atomic_case; simpl); reflexivity.
Qed.

Lemma transferF_final w f0 :
  final (transferF w f0) =
  match prepare w f0 with
  | (Continue env, f1, _) =>
      if send f1 then f1 else final (receiveFlow w env f1)
  | (_, f1, _) => f1
  end.
Proof.
  destruct (prepare w f0) as [[o f1] t0] eqn:P.
  destruct o as [env | e | ].
  - rewrite (transferF_run _ _ _ _ _ P). unfold final at 1. simpl.
    destruct (send f1) eqn:S.
    + rewrite (execute_send _ _ _ S).
      pose proof (sendFlow_final w env f1) as F.
      destruct (sendFlow w env f1) as [[o f2] tr].
      destruct o as [[] | | ]; exact F.
    + rewrite (execute_receive _ _ _ S).
      destruct (receiveFlow w env f1) as [[o f2] tr].
      destruct o as [[] | | ]; reflexivity.
  - unfold transferF, bind. rewrite P. reflexivity.
  - unfold transferF, bind. rewrite P. reflexivity.
Qed.

(** X13: whatever the collaborators answer and however the invocation
    ends, the cursor never decreases and never passes 2 (a cursor given
    above 2 stays as it is); a send never moves it, a receive to the X-Chain
    started at 0 neither, and an invocation that stops before the first
    wallet is made leaves it as given. *)
Theorem cursor_bounds (w : World) (f0 : Flags) :
  receiveRecoveryStep f0 <= receiveRecoveryStep (final (transferF w f0))
    <= Z.max (receiveRecoveryStep f0) 2 /\
  (receiveRecoveryStep (final (transferF w f0)) <> receiveRecoveryStep f0 ->
   exists env f1 t0,
     prepare w f0 = (Continue env, f1, t0) /\ send f1 = false /\
     (receiveRecoveryStep f0 = 0 -> PToX f1 = false)).
Proof.
  rewrite transferF_final.
  destruct (prepare w f0) as [[o f1] t0] eqn:P.
  destruct (keeps_run _ _ _ _ _ _ _ (prepare_no_chain w) P) as [[C _] _].
  destruct o as [env | e | ]; try (split; [lia | congruence]).
  destruct (send f1) eqn:S; try (split; [lia | congruence]).
  destruct (receiveFlow_cursor w env f1) as [B X]. rewrite C in B.
  split; [exact B | ].
  intros D. exists env, f1, t0.
  split; [reflexivity | split; [exact S | ]].
  intros Z0. destruct (PToX f1); [ | reflexivity].
  exfalso. apply D. rewrite X; congruence.
Qed.

Lemma cursor_bounds_witness :
  exists env f1 t0,
    prepare (happyWorld 10 ["alice"] true) (resumeFlags 0)
      = (Continue env, f1, t0) /\
    send f1 = false /\
    (receiveRecoveryStep (resumeFlags 0) = 0 -> PToX f1 = false).
Proof.
  apply (proj2 (cursor_bounds (happyWorld 10 ["alice"] true) (resumeFlags 0))).
  vm_compute. discriminate.
Defined.

(** ** Declining, and a network of no kind *)

(** X14: when the operator answers no to the confirmation, the invocation
    returns nil, not an error; the trace is that of the inputs and the
    summary followed by the prompt and the line Cancelled, no wallet
    operation is in it, and the cursor is as it was given. *)
Theorem declined_returns_nil (w : World) (f0 f1 f2 : Flags) (env : Env)
    (t0 t1 : list Event) :
  gather w f0 = (Continue env, f1, t0) ->
  printSummary w env f1 = (Continue tt, f2, t1) ->
  force f0 = false ->
  CaptureNoYes w confirmLabel = Ok false ->
  transferF w f0 =
    (Return None, f2,
     t0 ++ t1 ++ [EvCaptureNoYes confirmLabel; EvPrint MsgCancelled]) /\
  Forall notChain (events (transferF w f0)) /\
  receiveRecoveryStep f2 = receiveRecoveryStep f0.
Proof.
  intros G S F N.
  destruct (keeps_run _ _ _ _ _ _ _ (gather_quiet w) G) as [[C1 F1] Q].
  destruct (keeps_run _ _ _ _ _ _ _ (printSummary_cursor w env) S)
    as [[C2 F2] K].
  assert (T : transferF w f0 =
              (Return None, f2,
               t0 ++ t1 ++ [EvCaptureNoYes confirmLabel; EvPrint MsgCancelled])).
  { apply (transferF_confirm_stop _ _ _ _ _ _ _ _ _ _ G S).
    destruct (confirm_cases w f2) as [[Fo _] | [_ [[Y _] | [[_ R] | [e [Y _]]]]]].
    - congruence.
    - congruence.
    - exact R.
    - congruence. }
  split; [exact T | split; [ | congruence]].
  rewrite T. unfold events. simpl.
  apply Forall_app. split.
  - eapply Forall_impl; [ | exact Q]. intros x Hx.
    apply quiet_calm in Hx. exact (proj1 Hx).
  - apply Forall_app. split.
    + eapply Forall_impl; [ | exact K]. intros x Hx. exact (proj1 Hx).
    + repeat constructor.
Qed.

Lemma declined_returns_nil_witness :
  outcome (transferF (happyWorld 10 ["alice"] false) scenarioFlags)
    = Return None /\
  Forall notChain
    (events (transferF (happyWorld 10 ["alice"] false) scenarioFlags)).
Proof.
  destruct (declined_returns_nil (happyWorld 10 ["alice"] false)
              scenarioFlags scenarioFlags scenarioFlags
              {| env_network := testNetwork; env_kc := ["alice"];
                 env_receiverAddr := "bob";
                 env_amount := 1500000000; env_fee := 10 |}
              _ _
              ltac:(vm_compute; reflexivity) ltac:(vm_compute; reflexivity)
              ltac:(reflexivity) ltac:(reflexivity)) as (T & N & _).
  split; [rewrite T; reflexivity | exact N].
Defined.

Lemma gatherInputs_no_params w n f :
  GetNetworkFromCmdLineFlags w = Ok n ->
  Kind n = Undefined ->
  (outcome (gatherInputs w f) = Panic \/
   exists e, outcome (gatherInputs w f) = Return (Some e)) /\
  Forall (fun e => beforeFee e = true) (events (gatherInputs w f)).
Proof.
  intros K1 K2.
  unfold gatherInputs, checkFlags, resolveNetwork, selectStep,
    selectDestination, selectSigner, captureAmount, genesisFee, loadKeychain,
    GenesisParams, bind, get, when, emit, lift, modify, ret, fail, panic,
    outcome, events.
  destruct f; all_paths.
  all: split; [ first [left; reflexivity | right; eexists; reflexivity]
              | repeat constructor ].
Qed.

(** X15: on a network of no kind, such as [NetworkFromNetworkID] gives for
    an identifier it does not know, the invocation cannot succeed: the
    genesis parameters are nil, so an invocation that gets as far as the
    fee ends in a nil dereference, and one that does not ends with the
    error of a flag check or of a prompt. With the flags complete and valid
    it is the dereference. Nothing but the network resolver and the prompts
    for missing flags has happened by then: no key is read, no ledger
    opened, nothing printed or confirmed, no wallet made. *)
Theorem no_params_no_transfer (w : World) (n : Network) (f : Flags) :
  GetNetworkFromCmdLineFlags w = Ok n ->
  GenesisParams (genesis w) n = None ->
  (outcome (transferF w f) = Panic \/
   exists e, outcome (transferF w f) = Return (Some e)) /\
  Forall (fun e => beforeFee e = true) (events (transferF w f)) /\
  (fullySpecified f = true -> validFlags f = true ->
   transferF w f = (Panic, f, [EvGetNetwork])).
Proof.
  intros K1 K2.
  assert (U : Kind n = Undefined).
  { unfold GenesisParams in K2. destruct (Kind n); try discriminate K2.
    reflexivity. }
  destruct (gatherInputs_no_params w n f K1 U) as [O E].
  rewrite transferF_afterInputs.
  split; [ | split].
  - unfold bind, outcome in *.
    destruct (gatherInputs w f) as [[o f1] t1]. simpl in *.
    destruct O as [-> | [e ->]]; [left | right; exists e]; reflexivity.
  - unfold bind, outcome, events in *.
    destruct (gatherInputs w f) as [[o f1] t1]. simpl in *.
    destruct O as [-> | [e ->]]; exact E.
  - intros Fs V. unfold bind. rewrite (gatherInputs_given w f Fs V).
    unfold resolveNetwork, genesisFee, bind, emit, lift, ret. simpl.
    rewrite K1. simpl. rewrite K2. reflexivity.
Qed.

Lemma no_params_no_transfer_witness :
  transferF unknownNetworkWorld scenarioFlags
    = (Panic, scenarioFlags, [EvGetNetwork]).
Proof.
  apply (no_params_no_transfer unknownNetworkWorld
           (NetworkFromNetworkID testConstants 7) scenarioFlags
           ltac:(reflexivity) ltac:(reflexivity)).
  - vm_compute. reflexivity.
  - vm_compute. reflexivity.
Defined.

(** ** The source of the keys *)

Lemma afterInputs_no_store w i :
  keeps anyFlags (fun e => isStore e = false) (afterInputs w i).
Proof.
  unfold afterInputs, resolveReceiver, printSummary, confirm, execute,
    sendFlow, receiveFlow, receiveStep0, receiveStep1, receiveStep2,
    restartSame, restartStep, advance.
  keeps_auto.
Qed.

Lemma filter_bind_front {A B} (p : Event -> bool) (m : M A) (k : A -> M B) f :
  (forall a, keeps anyFlags (fun e => p e = false) (k a)) ->
  filter p (events (bind m k f)) = filter p (events (m f)).
Proof.
  intros Hk. unfold bind. destruct (m f) as [[o f1] t1].
  destruct o as [a | e | ]; try reflexivity.
  destruct (Hk a f1) as [_ H]. destruct (k a f1) as [[o2 f2] t2].
  unfold events in *. simpl in *.
  rewrite filter_app, (filter_none _ _ H), app_nil_r. reflexivity.
Qed.

Lemma gatherInputs_oneSource w f :
  oneSource (events (gatherInputs w f)) = true.
Proof.
  unfold oneSource, gatherInputs, checkFlags, resolveNetwork, selectStep,
    selectDestination, selectSigner, captureAmount, genesisFee, loadKeychain,
    GenesisParams, bind, get, when, emit, lift, modify, ret, fail, panic,
    events.
  destruct f; all_paths.
  all: reflexivity.
Qed.

Lemma gatherInputs_keySource w f :
  (keyName f =? "")%string = false ->
  Forall (fun e => keySource (GetKeyPath w (keyName f)) e = true)
    (events (gatherInputs w f)).
Proof.
  intros K.
  unfold gatherInputs, checkFlags, resolveNetwork, selectStep,
    selectDestination, selectSigner, captureAmount, genesisFee, loadKeychain,
    GenesisParams, bind, get, when, emit, lift, modify, ret, fail, panic,
    events.
  destruct f; simpl in K.
  repeat (simpl; rewrite ?K; simpl; atomic_case); simpl.
  all: repeat (once constructor); simpl; apply String.eqb_refl.
Qed.

Lemma gatherInputs_ledgerSource w f :
  (keyName f =? "")%string = true ->
  (ledgerIndex f =? wrongLedgerIndexVal) = false ->
  Forall (fun e => ledgerSource (ledgerIndex f) e = true)
    (events (gatherInputs w f)).
Proof.
  intros K L.
  unfold gatherInputs, checkFlags, resolveNetwork, selectStep,
    selectDestination, selectSigner, captureAmount, genesisFee, loadKeychain,
    GenesisParams, bind, get, when, emit, lift, modify, ret, fail, panic,
    events.
  destruct f; simpl in K, L.
  repeat (simpl; rewrite ?K, ?L; simpl; atomic_case); simpl.
  all: repeat (once constructor); simpl; apply Z.eqb_refl.
Qed.

Lemma afterInputs_keySource w i p :
  keeps anyFlags (fun e => keySource p e = true) (afterInputs w i).
Proof.
  unfold afterInputs, resolveReceiver, printSummary, confirm, execute,
    sendFlow, receiveFlow, receiveStep0, receiveStep1, receiveStep2,
    restartSame, restartStep, advance.
  keeps_auto.
Qed.

Lemma afterInputs_ledgerSource w i j :
  keeps anyFlags (fun e => ledgerSource j e = true) (afterInputs w i).
Proof.
  unfold afterInputs, resolveReceiver, printSummary, confirm, execute,
    sendFlow, receiveFlow, receiveStep0, receiveStep1, receiveStep2,
    restartSame, restartStep, advance.
  keeps_auto.
Qed.

(** X16: an invocation takes its keys from one source. Whatever the flags
    and the answers, it reads one key file, or opens the ledger and builds
    at most one keychain from it, of a single index, or stops before
    either; never both. With a key name given the ledger is not touched and
    the file read is that of the name; with a ledger index given and no
    key name, no key file is read and the keychain is that of the index. *)
Theorem signer_source (w : World) (f : Flags) :
  oneSource (events (transferF w f)) = true /\
  (keyName f <> "" ->
   Forall (fun e => keySource (GetKeyPath w (keyName f)) e = true)
     (events (transferF w f))) /\
  (keyName f = "" -> ledgerIndex f <> wrongLedgerIndexVal ->
   Forall (fun e => ledgerSource (ledgerIndex f) e = true)
     (events (transferF w f))).
Proof.
  rewrite transferF_afterInputs. split; [ | split].
  - unfold oneSource.
    rewrite (filter_bind_front isStore _ _ _ (afterInputs_no_store w)).
    exact (gatherInputs_oneSource w f).
  - intros K. apply Forall_bind.
    + apply gatherInputs_keySource. apply String.eqb_neq. exact K.
    + intros i. apply afterInputs_keySource.
  - intros K L. apply Forall_bind.
    + apply gatherInputs_ledgerSource.
      * apply String.eqb_eq. exact K.
      * apply Z.eqb_neq. exact L.
    + intros i. apply afterInputs_ledgerSource.
Qed.

Lemma signer_source_witness :
  Forall (fun e => keySource "keys/alice" e = true)
    (events (transferF (happyWorld 10 ["alice"] true) scenarioFlags)) /\
  Forall (fun e => ledgerSource 3 e = true)
    (events (transferF (happyWorld 10 ["alice"] true) ledgerFlags)).
Proof.
  split.
  - apply (proj1 (proj2 (signer_source (happyWorld 10 ["alice"] true)
                           scenarioFlags))).
    discriminate.
  - apply (proj2 (proj2 (signer_source (happyWorld 10 ["alice"] true)
                           ledgerFlags))).
    + reflexivity.
    + discriminate.
Defined.

(** ** Prompts and flags *)

Lemma gatherInputs_missing w f :
  Forall (fun e => missing f e = true) (events (gatherInputs w f)) /\
  receiverAddrStr (final (gatherInputs w f)) = receiverAddrStr f.
Proof.
  unfold gatherInputs, checkFlags, resolveNetwork, selectStep,
    selectDestination, selectSigner, captureAmount, genesisFee, loadKeychain,
    GenesisParams, bind, get, when, emit, lift, modify, ret, fail, panic,
    events, final.
  destruct f; all_paths.
  all: split; [ | reflexivity].
  all: repeat (once constructor); simpl; assumption.
Qed.

Lemma afterInputs_no_input_prompt w i :
  keeps anyFlags (fun e => inputPrompt e = false) (afterInputs w i).
Proof.
  unfold afterInputs, resolveReceiver, printSummary, confirm, execute,
    sendFlow, receiveFlow, receiveStep0, receiveStep1, receiveStep2,
    restartSame, restartStep, advance.
  keeps_auto.
Qed.

(** X17: a prompt is shown only for what the flags leave open. In every
    trace of an invocation, the step is asked only when neither --send nor
    --receive is set, the destination only when neither chain is chosen,
    the key or ledger (and the ledger index) only when neither is given,
    the amount only when it is zero, and the receiver address only when
    --target-addr is empty. *)
Theorem asks_only_what_is_missing (w : World) (f : Flags) (e : Event) :
  In e (events (transferF w f)) -> missing f e = true.
Proof.
  rewrite transferF_afterInputs.
  destruct (gatherInputs_missing w f) as [G A].
  unfold bind. destruct (gatherInputs w f) as [[o f1] t1].
  unfold events, final in *. simpl in *.
  rewrite Forall_forall in G.
  destruct o as [i | err | ]; try (apply G).
  pose proof (afterInputs_no_input_prompt w i f1) as [_ N].
  pose proof (afterInputs_unasked w i f1) as U.
  destruct (afterInputs w i f1) as [[o2 f2] t2].
  unfold events in *. simpl in *.
  intros I. apply in_app_or in I. destruct I as [I | I]; [apply G; exact I | ].
  rewrite Forall_forall in N. specialize (N e I).
  destruct e; simpl in *; try discriminate N; try reflexivity.
  - destruct (receiverAddrStr f =? "")%string eqn:R; [reflexivity | ].
    rewrite A, R in U. rewrite orb_true_r in U.
    rewrite Forall_forall in U. specialize (U eq_refl _ I). discriminate U.
  - destruct (receiverAddrStr f =? "")%string eqn:R; [reflexivity | ].
    rewrite A, R in U. rewrite orb_true_r in U.
    rewrite Forall_forall in U. specialize (U eq_refl _ I). discriminate U.
Qed.

Lemma asks_only_what_is_missing_witness :
  missing defaultFlags (EvCaptureFloat "Amount to send (AVAX units)") = true.
Proof.
  apply (asks_only_what_is_missing (happyWorld 10 ["alice"] true)
           defaultFlags).
  vm_compute. tauto.
Defined.

(** ** The hosts of a cluster (package node) *)

Lemma firstWithCloudID_spec {Host} (app : Inventory Host) hosts cloudID :
  match firstWithCloudID app hosts cloudID with
  | Some host =>
      exists before after,
        hosts = before ++ host :: after /\
        GetCloudID app host = cloudID /\
        Forall (fun h => GetCloudID app h <> cloudID) before
  | None => Forall (fun h => GetCloudID app h <> cloudID) hosts
  end.
Proof.
  induction hosts as [ | h rest IH]; simpl.
  - constructor.
  - destruct (String.eqb_spec (GetCloudID app h) cloudID) as [E | N].
    + exists [], rest. repeat split; [exact E | constructor].
    + destruct (firstWithCloudID app rest cloudID) as [host | ].
      * destruct IH as (before & after & -> & E & F).
        exists (h :: before), after. repeat split; [exact E | ].
        constructor; assumption.
      * constructor; assumption.
Qed.

(** X18: [GetHostWithCloudID] answers with the first host of the given
    cloud identifier, the hosts of the cluster's inventory coming before
    those of the monitoring inventory, and with nil and no error when no
    host has it; the monitoring inventory counts only when its file exists,
    and then a failure to read it is the error returned, even when the
    cluster's own inventory holds the host. *)
Theorem GetHostWithCloudID_first {Host : Type} (app : Inventory Host)
    (clusterName cloudID : string) (hosts : list Host) :
  GetInventoryFromAnsibleInventoryFile app
    (GetAnsibleInventoryDirPath app clusterName) = Ok hosts ->
  match (if FileExists app (GetMonitoringInventoryDir app clusterName)
         then GetInventoryFromAnsibleInventoryFile app
                (GetMonitoringInventoryDir app clusterName)
         else Ok []) with
  | Err e => GetHostWithCloudID app clusterName cloudID = Err e
  | Ok monitoringHosts =>
      match GetHostWithCloudID app clusterName cloudID with
      | Ok (Some host) =>
          exists before after,
            hosts ++ monitoringHosts = before ++ host :: after /\
            GetCloudID app host = cloudID /\
            Forall (fun h => GetCloudID app h <> cloudID) before
      | Ok None =>
          Forall (fun h => GetCloudID app h <> cloudID)
            (hosts ++ monitoringHosts)
      | Err _ => False
      end
  end.
Proof.
  intros I. unfold GetHostWithCloudID, allHosts. rewrite I.
  destruct (FileExists app (GetMonitoringInventoryDir app clusterName)).
  - destruct (GetInventoryFromAnsibleInventoryFile app
                (GetMonitoringInventoryDir app clusterName)) as [ms | e].
    + apply firstWithCloudID_spec.
    + reflexivity.
  - rewrite app_nil_r. apply firstWithCloudID_spec.
Qed.

Lemma GetHostWithCloudID_first_witness :
  exists before after,
    [("node1", "i-1"); ("node2", "i-2"); ("monitor", "i-2")] =
      before ++ ("node2", "i-2") :: after /\
    GetCloudID testInventory ("node2", "i-2") = "i-2" /\
    Forall (fun h => GetCloudID testInventory h <> "i-2") before.
Proof.
  exact (GetHostWithCloudID_first testInventory "c1" "i-2"
           [("node1", "i-1"); ("node2", "i-2")] eq_refl).
Defined.

Lemma last_default {A} (x : A) (l : list A) (d d' : A) :
  last (x :: l) d = last (x :: l) d'.
Proof.
  revert x. induction l as [ | y l IH]; intros x; [reflexivity | ].
  change (last (y :: l) d = last (y :: l) d'). apply IH.
Qed.

Lemma relayerLoop_all_loaded {Host} (app : Inventory Host) cloudIDs configs :
  map (LoadClusterNodeConfig app) cloudIDs = map Ok configs ->
  forall relayerCloudID,
    relayerLoop app cloudIDs relayerCloudID =
    Ok (last (map NodeID (filter IsAWMRelayer configs)) relayerCloudID).
Proof.
  revert configs.
  induction cloudIDs as [ | c rest IH]; intros configs M acc.
  - destruct configs; [reflexivity | discriminate M].
  - destruct configs as [ | nc ncs]; [discriminate M | ].
    simpl in M. inversion M as [[L R]]. simpl. rewrite L.
    rewrite (IH ncs R). destruct (IsAWMRelayer nc); simpl; [ | reflexivity].
    destruct (map NodeID (filter IsAWMRelayer ncs)) as [ | s l];
      [reflexivity | ].
    f_equal. apply last_default.
Qed.

Lemma relayerLoop_failure {Host} (app : Inventory Host) loaded configs
    cloudID rest e :
  map (LoadClusterNodeConfig app) loaded = map Ok configs ->
  LoadClusterNodeConfig app cloudID = Err e ->
  forall relayerCloudID,
    relayerLoop app (loaded ++ cloudID :: rest) relayerCloudID = Err e.
Proof.
  revert configs.
  induction loaded as [ | c cs IH]; intros configs M E acc; simpl.
  - rewrite E. reflexivity.
  - destruct configs as [ | nc ncs]; [discriminate M | ].
    simpl in M. inversion M as [[L R]]. rewrite L. apply (IH ncs R E).
Qed.

(** X19: [GetAWMRelayerHost] looks up, with [GetHostWithCloudID], the
    [NodeID] recorded in the configuration of the last node of the cluster
    marked as relayer, and the empty identifier when no node is marked.
    Every configuration is loaded before any host is looked up: one that
    fails to load makes the call fail with its error, also when a relayer
    was found before it. *)
Theorem GetAWMRelayerHost_last_relayer {Host : Type} (app : Inventory Host)
    (clusterName : string) (cloudIDs : list string) :
  GetCloudIDs app clusterName = Ok cloudIDs ->
  (forall configs,
      map (LoadClusterNodeConfig app) cloudIDs = map Ok configs ->
      GetAWMRelayerHost app clusterName =
      GetHostWithCloudID app clusterName
        (last (map NodeID (filter IsAWMRelayer configs)) "")) /\
  (forall loaded configs cloudID rest e,
      cloudIDs = loaded ++ cloudID :: rest ->
      map (LoadClusterNodeConfig app) loaded = map Ok configs ->
      LoadClusterNodeConfig app cloudID = Err e ->
      GetAWMRelayerHost app clusterName = Err e).
Proof.
  intros C. unfold GetAWMRelayerHost. rewrite C. split.
  - intros configs M. rewrite (relayerLoop_all_loaded app _ _ M).
    reflexivity.
  - intros loaded configs cloudID rest e -> M E.
    rewrite (relayerLoop_failure app _ _ _ _ _ M E). reflexivity.
Qed.

Lemma GetAWMRelayerHost_last_relayer_witness :
  GetAWMRelayerHost testInventory "c1" =
  GetHostWithCloudID testInventory "c1" "i-2".
Proof.
  apply (proj1 (GetAWMRelayerHost_last_relayer testInventory "c1"
                  ["i-1"; "i-2"] eq_refl)
           [ {| NodeID := "i-1"; IsAWMRelayer := false |};
             {| NodeID := "i-2"; IsAWMRelayer := true |} ]).
  reflexivity.
Defined.

